(** * sync_docker_images.py: reconciliation of two Docker registries

    A shallow embedding of [src/sync_docker_images.py] and the proofs of the
    properties its specification states about it.

    The script is modelled from the catalog request (line 68) to its end.
    The command line and the credential prompt (lines 41-65) are taken as
    already resolved into [Args]. The registries and the Docker daemon are
    an environment [Env] of answers; every Python object the script mutates
    (the [images] list and the [image_info] dictionaries it holds) lives in
    an explicit object store. Creating the Docker client (line 77) and
    opening [output.csv] for writing (line 144) are taken to succeed. *)

From stdpp Require Import base option list gmap strings.
From Stdlib Require Import ZArith Ascii.

Open Scope string_scope.
Open Scope list_scope.

(** ** Python strings *)

(** Truthiness of a [str]: only the empty string is falsy. *)
Definition truthy (s : string) : bool :=
  match s with
  | EmptyString => false
  | String _ _ => true
  end.

(** [x == y] on strings. *)
Definition str_eq (x y : string) : bool := String.eqb x y.

(** ** The regular expressions of [re], as far as the script uses them

    The script has one pattern, [".*://"]: a greedy starred dot followed by
    three literal characters. A pattern is a sequence of items; the matcher
    is the backtracking matcher of [re], which explores the alternatives in
    priority order (a star takes as many characters as it can before it
    gives any back) and returns the first success. *)
Module Re.

Inductive atom : Type :=
| Dot                   (* [.]: any character except a newline *)
| Chr (c : ascii).      (* a literal character *)

Inductive item : Type :=
| One (a : atom)
| Star (a : atom).      (* [a*], greedy *)

Definition pattern : Type := list item.

Definition newline : ascii := "010"%char.

Definition atom_matches (a : atom) (c : ascii) : bool :=
  match a with
  | Dot => negb (Ascii.eqb c newline)
  | Chr c' => Ascii.eqb c c'
  end.

(** [match_here p text]: match [p] at the start of [text]; the result is
    what is left of [text] after the match. *)
Fixpoint match_here (p : pattern) : string -> option string :=
  match p with
  | [] => fun text => Some text
  | One a :: p' => fun text =>
      match text with
      | String c t => if atom_matches a c then match_here p' t else None
      | EmptyString => None
      end
  | Star a :: p' =>
      fix star (text : string) : option string :=
        match text with
        | String c t =>
            if atom_matches a c then
              match star t with
              | Some rest => Some rest
              | None => match_here p' text
              end
            else match_here p' text
        | EmptyString => match_here p' EmptyString
        end
  end.

(** [sub_from skip p repl text]: the scan of [re.sub]. The text is read
    left to right; [skip] counts the characters still covered by the
    match found last, which are dropped. Where no match is pending the
    pattern is tried at the current position: a match emits [repl] and
    covers the characters it consumed, otherwise the character is copied.
    A match that consumes nothing emits [repl] and copies the character,
    as [re.sub] does for an empty match. *)
Fixpoint sub_from (skip : nat) (p : pattern) (repl text : string) : string :=
  match skip with
  | S skip' =>
      match text with
      | String _ t => sub_from skip' p repl t
      | EmptyString => EmptyString
      end
  | O =>
      match match_here p text with
      | Some rest =>
          match String.length text - String.length rest with
          | S k =>
              repl +:+
              match text with
              | String _ t => sub_from k p repl t
              | EmptyString => EmptyString
              end
          | O =>
              repl +:+
              match text with
              | String c t => String c (sub_from 0 p repl t)
              | EmptyString => EmptyString
              end
          end
      | None =>
          match text with
          | String c t => String c (sub_from 0 p repl t)
          | EmptyString => EmptyString
          end
      end
  end.

(** [re.sub(p, repl, text)] *)
Definition sub (p : pattern) (repl text : string) : string :=
  sub_from 0 p repl text.

End Re.

(** The pattern [".*://"] of lines 113 and 114. *)
Definition scheme_pattern : Re.pattern :=
  [Re.Star Re.Dot; Re.One (Re.Chr ":"); Re.One (Re.Chr "/"); Re.One (Re.Chr "/")].


(** ** Command line, registries and daemon *)

(** The parsed arguments, as they stand at line 67: a user or password that
    was not given is [None]. *)
Record Args : Type := {
  source_registry : string;
  source_user : option string;
  source_password : option string;
  target_registry : string;
  target_user : option string;
  target_password : option string
}.

(** An entry of the [errors] member of a registry's JSON answer. *)
Record registry_error : Type := {
  code : string;
  message : string
}.

(** The JSON object of an answer, reduced to the three members the script
    reads. [None] is a member that is not there; the value of [tags] may be
    [null], which is the inner [None]. *)
Record body : Type := {
  j_errors : option (list registry_error);
  j_repositories : option (list string);
  j_tags : option (option (list string))
}.

(** A [requests.Response]. [headers] is keyed by the lower-cased header
    name, as the case-insensitive dictionary of [requests] is. [json] is
    [None] when the body does not parse as JSON. *)
Record response : Type := {
  status_code : Z;
  headers : gmap string string;
  json : option body
}.

(** What is outside the script. [source_get] and [target_get] answer a GET
    of a session by URL, [None] when the call raises instead of returning
    (timeout, connection error); a registry answers a URL the same way each
    time the run asks. [docker_login registry user password] is [Some err]
    when [docker_client.login] raises [APIError] or [TLSParameterError]
    printed as [err]. *)
Record Env : Type := {
  source_get : string -> option response;
  target_get : string -> option response;
  docker_login : string -> string -> string -> option string
}.

(** ** Exceptions, objects and the state of the process *)

Inductive exn : Type :=
| RequestException            (* raised by [requests] for a failed call *)
| JSONDecodeError             (* [.json()] on a body that is not JSON *)
| KeyError (key : string)
| TypeError                   (* iterating [None] *)
| IndexError
| ValueError                  (* [DictWriter]: a key that is not a field *)
| SystemExit (status : Z).    (* [exit(n)] *)

Inductive result (A : Type) : Type :=
| Ok (a : A)
| Raise (e : exn).

Arguments Ok {A} a.
Arguments Raise {A} e.

(** A Python [dict] from [str] to [str]: the items in insertion order. *)
Definition dict : Type := list (string * string).

(** [d[k] = v]: replaces the value in place when [k] is a key already, adds
    the item at the end otherwise. *)
Fixpoint dict_set (k v : string) (d : dict) : dict :=
  match d with
  | [] => [(k, v)]
  | (k', v') :: d' =>
      if str_eq k k' then (k, v) :: d' else (k', v') :: dict_set k v d'
  end.

Fixpoint dict_get (k : string) (d : dict) : option string :=
  match d with
  | [] => None
  | (k', v') :: d' => if str_eq k k' then Some v' else dict_get k d'
  end.

Definition dict_keys (d : dict) : list string := map fst d.

(** An object reference: the index of the dictionary in the store. *)
Definition loc : Type := nat.

(** The state of the process: the store of dictionaries, the list object
    bound to [images] (it holds references), what was printed, and the rows
    written to [output.csv] ([None] until the file is opened). *)
Record world : Type := World {
  heap : list dict;
  images : list loc;
  stdout : list string;
  csv_file : option (list (list string))
}.

Definition set_heap (h : list dict) (w : world) : world :=
  World h (images w) (stdout w) (csv_file w).
Definition set_images (i : list loc) (w : world) : world :=
  World (heap w) i (stdout w) (csv_file w).
Definition set_stdout (o : list string) (w : world) : world :=
  World (heap w) (images w) o (csv_file w).
Definition set_csv_file (c : option (list (list string))) (w : world) : world :=
  World (heap w) (images w) (stdout w) c.

(** Line 18: [images = []], nothing printed, no file. *)
Definition initial_world : world := World [] [] [] None.

(** ** The monad of the script: state, and exceptions that end it *)

Definition M (A : Type) : Type := world -> result A * world.

Definition ret {A} (a : A) : M A := fun w => (Ok a, w).

Definition raise {A} (e : exn) : M A := fun w => (Raise e, w).

Definition bind {A B} (m : M A) (f : A -> M B) : M B :=
  fun w =>
    match m w with
    | (Ok a, w') => f a w'
    | (Raise e, w') => (Raise e, w')
    end.

Declare Scope py_scope.
Delimit Scope py_scope with py.
Bind Scope py_scope with M.

Notation "'let*' x ':=' m 'in' f" := (bind m (fun x => f))
  (at level 10, x name, m at level 100, f at level 200) : py_scope.
Notation "m1 >> m2" := (bind m1 (fun _ => m2))
  (at level 90, right associativity) : py_scope.

Open Scope py_scope.

(** [for x in xs: body x] *)
Fixpoint for_each {A} (xs : list A) (body : A -> M unit) : M unit :=
  match xs with
  | [] => ret tt
  | x :: xs' => body x >> for_each xs' body
  end.

(** [{}]: a new empty dictionary. *)
Definition new_dict : M loc :=
  fun w => (Ok (length (heap w)), set_heap (heap w ++ [[]]) w).

(** [x[k] = v] on the dictionary [x] refers to. A reference always comes
    from [new_dict], so it is in the store. *)
Definition setitem (x : loc) (k v : string) : M unit :=
  fun w => (Ok tt, set_heap (alter (dict_set k v) x (heap w)) w).

(** [x[k]] *)
Definition getitem (x : loc) (k : string) : M string :=
  fun w =>
    match heap w !! x with
    | Some d =>
        match dict_get k d with
        | Some v => (Ok v, w)
        | None => (Raise (KeyError k), w)
        end
    | None => (Raise (KeyError k), w)
    end.

(** [images.append(x)] *)
Definition images_append (x : loc) : M unit :=
  fun w => (Ok tt, set_images (images w ++ [x]) w).

(** Reading the variable [images]. *)
Definition get_images : M (list loc) := fun w => (Ok (images w), w).

Definition print (line : string) : M unit :=
  fun w => (Ok tt, set_stdout (stdout w ++ [line]) w).

(** [exit(n)] *)
Definition exit (n : Z) : M unit := raise (SystemExit n).

(** [session.get(url)] *)
Definition session_get (get : string -> option response) (url : string) : M response :=
  match get url with
  | Some r => ret r
  | None => raise RequestException
  end.

(** [r.json()] *)
Definition response_json (r : response) : M body :=
  match json r with
  | Some j => ret j
  | None => raise JSONDecodeError
  end.

(** [j[k]] for a member of a JSON object. *)
Definition member {A} (k : string) (m : option A) : M A :=
  match m with
  | Some v => ret v
  | None => raise (KeyError k)
  end.

(** What a [for] needs of what it iterates: [None] is not iterable. *)
Definition iter {A} (v : option (list A)) : M (list A) :=
  match v with
  | Some l => ret l
  | None => raise TypeError
  end.

(** ** The script *)

(** Line 15 *)
Definition image_status : list string :=
  [ "Image doesn't exist on target";
    "Image already present on target";
    "Conflict: same tag exist in both registries with different digest" ].

(** Lines 33-39 *)
Definition csv_write : bool := true.
Definition dry_run : bool := true.

(** Lines 19-31: the first entry of [images] holds the CSV headers. *)
Definition header_entry : M unit :=
  let* image_info := new_dict in
  setitem image_info "image" "Image" >>
  setitem image_info "tag" "Tag" >>
  setitem image_info "source_digest" "Source digest" >>
  setitem image_info "target_digest" "Target digest" >>
  setitem image_info "status" "Status" >>
  setitem image_info "pull_command" "Pull command" >>
  setitem image_info "retag_command" "Retag command" >>
  setitem image_info "push_command" "Push command" >>
  setitem image_info "cleanup_source" "Cleanup source image" >>
  setitem image_info "cleanup_target" "Cleanup target image" >>
  images_append image_info.

(** Lines 69-74: the catalog's [errors]. The [exit(1)] is in the body of
    the [for], so the first error ends the run. *)
Definition catalog_errors (args : Args) (source_catalog : response) : M unit :=
  let* j := response_json source_catalog in
  match j_errors j with
  | Some errors =>
      for_each errors (fun error =>
        print "" >>
        print ("Error connecting to " +:+ source_registry args +:+ ":") >>
        print (code error +:+ ": " +:+ message error) >>
        exit 1)
  | None => ret tt
  end.

(** [args.user and args.password]: both given and not empty. *)
Definition given (o : option string) : bool := from_option truthy false o.

(** Lines 79-86 and 87-94: logging the Docker client in to one registry. *)
Definition login (env : Env) (registry : string) (user password : option string) : M unit :=
  if given user && given password then
    match docker_login env registry (default "" user) (default "" password) with
    | None => ret tt
    | Some err =>
        print "" >>
        print ("Could not login to " +:+ registry +:+ ":") >>
        print err >>
        exit 1
    end
  else ret tt.

(** Lines 105-110, for one of the two requests: the digest is the empty
    string unless the answer has the header, whose value it is then. *)
Definition digest_of (digest_request : response) : string :=
  let digest := "" in
  match headers digest_request !! "docker-content-digest" with
  | Some value => value
  | None => digest
  end.

(** Lines 113-116 *)
Definition plain (registry : string) : string := Re.sub scheme_pattern "" registry.

Definition image_ref (registry image tag : string) : string :=
  plain registry +:+ "/" +:+ image +:+ ":" +:+ tag.

(** Lines 124-129: the [if]/[elif]/[elif] that stores the status. There is
    no [else]: where no test holds nothing is stored. *)
Definition store_status (image_info : loc) (source_digest target_digest : string) : M unit :=
  if negb (truthy target_digest) then
    setitem image_info "status" (image_status !!! 0%nat)
  else if str_eq source_digest target_digest then
    setitem image_info "status" (image_status !!! 1%nat)
  else if negb (str_eq source_digest target_digest) then
    setitem image_info "status" (image_status !!! 2%nat)
  else ret tt.

(** Lines 102-135: the body of the inner loop, for one image and tag. *)
Definition process_tag (args : Args) (env : Env) (image tag : string) : M unit :=
  let* source_digest_request :=
    session_get (source_get env)
      (source_registry args +:+ "/v2/" +:+ image +:+ "/manifests/" +:+ tag) in
  let* target_digest_request :=
    session_get (target_get env)
      (target_registry args +:+ "/v2/" +:+ image +:+ "/manifests/" +:+ tag) in
  let source_digest := digest_of source_digest_request in
  let target_digest := digest_of target_digest_request in
  let source_image := image_ref (source_registry args) image tag in
  let target_image := image_ref (target_registry args) image tag in
  let* image_info := new_dict in
  setitem image_info "image" image >>
  setitem image_info "tag" tag >>
  setitem image_info "source_digest" source_digest >>
  setitem image_info "target_digest" target_digest >>
  store_status image_info source_digest target_digest >>
  setitem image_info "pull_command" ("docker pull " +:+ source_image) >>
  setitem image_info "retag_command" ("docker tag " +:+ source_image +:+ " " +:+ target_image) >>
  setitem image_info "push_command" ("docker push " +:+ target_image) >>
  setitem image_info "cleanup_source" ("docker rmi " +:+ source_image) >>
  setitem image_info "cleanup_target" ("docker rmi " +:+ target_image) >>
  images_append image_info.

(** Lines 98-101: the body of the outer loop, for one image. *)
Definition process_image (args : Args) (env : Env) (image : string) : M unit :=
  let* tags :=
    session_get (source_get env)
      (source_registry args +:+ "/v2/" +:+ image +:+ "/tags/list") in
  let* j := response_json tags in
  let* value := member "tags" (j_tags j) in
  let* tag_list := iter value in
  for_each tag_list (process_tag args env image).

(** Lines 97-135 *)
Definition process_catalog (args : Args) (env : Env) (source_catalog : response) : M unit :=
  let* j := response_json source_catalog in
  let* repositories := member "repositories" (j_repositories j) in
  for_each repositories (process_image args env).

(** [open(csv_filename, 'w')] *)
Definition csv_open : M unit := fun w => (Ok tt, set_csv_file (Some []) w).

(** [writer.writerow]: the values of the fields in the order of the
    fields, the empty string for a field the dictionary lacks;
    [ValueError] for a dictionary with a key that is not a field. *)
Definition csv_writerow (fields : list string) (x : loc) : M unit :=
  fun w =>
    let d := default [] (heap w !! x) in
    if forallb (fun k => bool_decide (k ∈ fields)) (dict_keys d) then
      (Ok tt,
       set_csv_file
         (Some (default [] (csv_file w) ++ [map (fun k => default "" (dict_get k d)) fields]))
         w)
    else (Raise ValueError, w).

(** [for key in x: fields.append(key)] *)
Definition keys_of (x : loc) : M (list string) :=
  fun w => (Ok (dict_keys (default [] (heap w !! x))), w).

(** Lines 138-152 *)
Definition csv_export : M unit :=
  csv_open >>
  let* all := get_images in
  let* first := (match all with x :: _ => ret x | [] => raise IndexError end) in
  let* fields := keys_of first in
  for_each all (csv_writerow fields) >>
  print "CSV export completed".

(** Lines 159-165: the commands of one entry. *)
Definition print_commands (image : loc) : M unit :=
  let* status := getitem image "status" in
  if str_eq status (image_status !!! 0%nat) then
    (let* c := getitem image "pull_command" in print c) >>
    (let* c := getitem image "retag_command" in print c) >>
    (let* c := getitem image "push_command" in print c) >>
    (let* c := getitem image "cleanup_source" in print c) >>
    (let* c := getitem image "cleanup_target" in print c) >>
    print ""
  else ret tt.

(** Lines 172-174: an entry in the listing of one status message. *)
Definition print_if_status (status_message : string) (image : loc) : M unit :=
  let* status := getitem image "status" in
  if str_eq status status_message then
    let* i := getitem image "image" in
    let* t := getitem image "tag" in
    print (i +:+ ":" +:+ t)
  else ret tt.

(** Lines 154-178 *)
Definition report_commands : M unit :=
  if dry_run then
    print "" >>
    print "These commands would run:" >>
    (let* all := get_images in for_each (drop 1 all) print_commands) >>
    print "" >>
    for_each (drop 2 image_status) (fun status_message =>
      print status_message >>
      let* all := get_images in
      for_each (drop 1 all) (print_if_status status_message))
  else exit 0.

(** The script, from line 17 to the end. *)
Definition main (args : Args) (env : Env) : M unit :=
  header_entry >>
  let* source_catalog :=
    session_get (source_get env) (source_registry args +:+ "/v2/_catalog") in
  catalog_errors args source_catalog >>
  login env (source_registry args) (source_user args) (source_password args) >>
  login env (target_registry args) (target_user args) (target_password args) >>
  process_catalog args env source_catalog >>
  (if csv_write then csv_export else ret tt) >>
  report_commands.

Definition run (args : Args) (env : Env) : result unit * world :=
  main args env initial_world.

(** ** The specification's vocabulary *)

(** The outcome of a digest lookup, and the three statuses (data model of
    the specification). *)
Inductive DigestObservation : Type :=
| Absent
| Present (digest : string).

Inductive Status : Type :=
| MissingOnTarget
| InSync
| Conflict.

(** The message the script stores for a status (line 15). *)
Definition status_message (s : Status) : string :=
  match s with
  | MissingOnTarget => image_status !!! 0%nat
  | InSync => image_status !!! 1%nat
  | Conflict => image_status !!! 2%nat
  end.

(** How a digest held by the script reads as an observation: the script
    keeps the empty string where nothing was observed. *)
Definition observation (digest : string) : DigestObservation :=
  if truthy digest then Present digest else Absent.

(** The classification rule in the words of the specification: the first
    rule that matches decides. *)
Definition classify (sourceDigest targetDigest : DigestObservation) : Status :=
  match sourceDigest, targetDigest with
  | _, Absent => MissingOnTarget
  | Present d1, Present d2 => if str_eq d1 d2 then InSync else Conflict
  | Absent, Present _ => Conflict
  end.

(** ** What the script leaves in the store *)

(** The entries of [images], read through the store. *)
Definition report (w : world) : list (option dict) :=
  map (fun x => heap w !! x) (images w).

(** The dictionary lines 19-30 build. *)
Definition header_record : dict :=
  [ ("image", "Image"); ("tag", "Tag");
    ("source_digest", "Source digest"); ("target_digest", "Target digest");
    ("status", "Status");
    ("pull_command", "Pull command"); ("retag_command", "Retag command");
    ("push_command", "Push command");
    ("cleanup_source", "Cleanup source image");
    ("cleanup_target", "Cleanup target image") ].

(** The dictionary lines 119-134 build for an image and tag with the two
    digests ([process_tag_returns] below). *)
Definition image_record (args : Args) (image tag source_digest target_digest : string) : dict :=
  let source_image := image_ref (source_registry args) image tag in
  let target_image := image_ref (target_registry args) image tag in
  [ ("image", image); ("tag", tag);
    ("source_digest", source_digest); ("target_digest", target_digest);
    ("status", status_message (classify (observation source_digest) (observation target_digest)));
    ("pull_command", "docker pull " +:+ source_image);
    ("retag_command", "docker tag " +:+ source_image +:+ " " +:+ target_image);
    ("push_command", "docker push " +:+ target_image);
    ("cleanup_source", "docker rmi " +:+ source_image);
    ("cleanup_target", "docker rmi " +:+ target_image) ].

(** A new dictionary [d] in the store, appended to [images]. *)
Definition push (d : dict) (w : world) : world :=
  World (heap w ++ [d]) (images w ++ [length (heap w)]) (stdout w) (csv_file w).

Definition push_all (ds : list dict) (w : world) : world :=
  fold_left (fun w d => push d w) ds w.

(** Every reference in [images] is in the store. *)
Definition wf (w : world) : Prop :=
  Forall (fun x => x < length (heap w)) (images w).

(** ** Vocabulary of the statements *)

(** A store in which [x] refers to an empty dictionary. *)
Definition blank (x : loc) : world := World (replicate (S x) []) [] [] None.

(** [://] occurs somewhere in the string. *)
Fixpoint has_separator (s : string) : bool :=
  match s with
  | EmptyString => false
  | String _ t => String.prefix "://" s || has_separator t
  end.

(** The string has no newline. *)
Fixpoint one_line (s : string) : bool :=
  match s with
  | EmptyString => true
  | String c t => negb (Ascii.eqb c Re.newline) && one_line t
  end.

(** The three literal characters that end the pattern. *)
Definition separator_pattern : Re.pattern :=
  [Re.One (Re.Chr ":"); Re.One (Re.Chr "/"); Re.One (Re.Chr "/")].

(** What the registries answer for one image and tag: the entry lines
    102-134 build, [None] when one of the two manifest requests raises. *)
Definition resolved (args : Args) (env : Env) (id : string * string) : option dict :=
  match
    source_get env (source_registry args +:+ "/v2/" +:+ id.1 +:+ "/manifests/" +:+ id.2),
    target_get env (target_registry args +:+ "/v2/" +:+ id.1 +:+ "/manifests/" +:+ id.2)
  with
  | Some rs, Some rt => Some (image_record args id.1 id.2 (digest_of rs) (digest_of rt))
  | _, _ => None
  end.

(** The tags the source registry lists for an image, [None] when lines
    99-101 raise before the first tag. *)
Definition tag_list (args : Args) (env : Env) (image : string) : option (list string) :=
  match source_get env (source_registry args +:+ "/v2/" +:+ image +:+ "/tags/list") with
  | Some tags =>
      match json tags with
      | Some j =>
          match j_tags j with
          | Some (Some l) => Some l
          | _ => None
          end
      | None => None
      end
  | None => None
  end.

(** The images and tags in the order the source registry lists them. *)
Definition identities (args : Args) (env : Env) (repositories : list string) : list (string * string) :=
  concat (map (fun image => map (pair image) (default [] (tag_list args env image))) repositories).

(** An action that only appends entries: those of an initial segment
    [done] of [ids], all of [ids] when it returns. *)
Definition appends (args : Args) (env : Env) (m : M unit) (ids : list (string * string)) : Prop :=
  forall w, exists r done recs,
    m w = (r, push_all recs w) /\
    done `prefix_of` ids /\
    Forall2 (fun id d => resolved args env id = Some d) done recs /\
    (r = Ok tt -> done = ids).

(** [m] changes neither a dictionary nor the list [images]. *)
Definition keeps_store {A} (m : M A) : Prop :=
  forall w, heap (snd (m w)) = heap w /\ images (snd (m w)) = images w.

(** [m] adds to the store the entries of an initial segment [done] of
    [ids], all of [ids] when it returns, appends their references to
    [images] in that order, and changes nothing that was there. *)
Definition grows (args : Args) (env : Env) (m : M unit) (ids : list (string * string)) : Prop :=
  forall w, exists done recs,
    heap (snd (m w)) = heap w ++ recs /\
    images (snd (m w)) = images w ++ seq (length (heap w)) (length recs) /\
    done `prefix_of` ids /\
    Forall2 (fun id d => resolved args env id = Some d) done recs /\
    (fst (m w) = Ok tt -> done = ids).

(** [m] prints, and does nothing else. *)
Definition only_prints {A} (m : M A) : Prop :=
  forall w, exists out, snd (m w) = set_stdout (stdout w ++ out) w.

(** Lines 68-94 once the catalog request has returned. *)
Definition before_loop (args : Args) (env : Env) (source_catalog : response) : M unit :=
  catalog_errors args source_catalog >>
  login env (source_registry args) (source_user args) (source_password args) >>
  login env (target_registry args) (target_user args) (target_password args).

(** The repositories of the catalog, none when the script cannot read them. *)
Definition catalog_repositories (args : Args) (env : Env) : list string :=
  match source_get env (source_registry args +:+ "/v2/_catalog") with
  | Some c =>
      match json c with
      | Some j => default [] (j_repositories j)
      | None => []
      end
  | None => []
  end.

(** The catalog enumeration order: the repositories in the order of the
    catalog, the tags of each in the order of its tag list. *)
Definition enumeration (args : Args) (env : Env) : list (string * string) :=
  identities args env (catalog_repositories args env).

(** An action is append-only when the entries [images] held before it are
    still there after it, unchanged and in place. *)
Definition append_only {A} (m : M A) : Prop :=
  forall w, wf w -> wf (snd (m w)) /\ report w `prefix_of` report (snd (m w)).

(** ** Scenarios *)

(** Two registries as in the usage line of the script, accessed
    anonymously. *)
Definition example_args : Args :=
  {| source_registry := "https://source.example.com";
     source_user := None; source_password := None;
     target_registry := "https://target.example.com";
     target_user := None; target_password := None |}.

Definition catalog_answer (repositories : list string) : response :=
  {| status_code := 200; headers := ∅;
     json := Some {| j_errors := None; j_repositories := Some repositories; j_tags := None |} |}.

Definition tags_answer (tags : list string) : response :=
  {| status_code := 200; headers := ∅;
     json := Some {| j_errors := None; j_repositories := None; j_tags := Some (Some tags) |} |}.

(** A manifest answered with its digest in the header. *)
Definition manifest_answer (digest : string) : response :=
  {| status_code := 200; headers := {[ "docker-content-digest" := digest ]};
     json := Some {| j_errors := None; j_repositories := None; j_tags := None |} |}.

(** The answer of a registry for what it does not have. *)
Definition error_answer (status : Z) (c m : string) : response :=
  {| status_code := status; headers := ∅;
     json := Some {| j_errors := Some [ {| code := c; message := m |} ];
                     j_repositories := None; j_tags := None |} |}.

Fixpoint lookup_url (table : list (string * response)) (url : string) : option response :=
  match table with
  | [] => None
  | (u, r) :: table' => if str_eq url u then Some r else lookup_url table' url
  end.

(** A registry that answers the URLs of [table] and has nothing else. *)
Definition serves (table : list (string * response)) (url : string) : option response :=
  Some (default (error_answer 404 "NOT_FOUND" "not found") (lookup_url table url)).

(** The source has [app] with three tags; the target lacks [v1], has the
    same [v2] and another [v3]. *)
Definition example_env : Env :=
  {| source_get := serves
       [ ("https://source.example.com/v2/_catalog", catalog_answer ["app"]);
         ("https://source.example.com/v2/app/tags/list", tags_answer ["v1"; "v2"; "v3"]);
         ("https://source.example.com/v2/app/manifests/v1", manifest_answer "sha256:aaa");
         ("https://source.example.com/v2/app/manifests/v2", manifest_answer "sha256:bbb");
         ("https://source.example.com/v2/app/manifests/v3", manifest_answer "sha256:ccc") ];
     target_get := serves
       [ ("https://target.example.com/v2/app/manifests/v2", manifest_answer "sha256:bbb");
         ("https://target.example.com/v2/app/manifests/v3", manifest_answer "sha256:ddd") ];
     docker_login := fun _ _ _ => None |}.


(** As [example_env], but the request of the target's manifest of
    [app:v2] times out. *)
Definition timeout_env : Env :=
  {| source_get := source_get example_env;
     target_get := fun url =>
       if str_eq url "https://target.example.com/v2/app/manifests/v2" then None
       else target_get example_env url;
     docker_login := fun _ _ _ => None |}.

(** The source answers the catalog request with an error. *)
Definition unauthorized_env : Env :=
  {| source_get := serves
       [ ("https://source.example.com/v2/_catalog",
          error_answer 401 "UNAUTHORIZED" "authentication required") ];
     target_get := serves [];
     docker_login := fun _ _ _ => None |}.

(** The target answers the manifest of [app:v1] with an empty digest
    header; the source does so for [app:v2]. *)
Definition empty_header_env : Env :=
  {| source_get := serves
       [ ("https://source.example.com/v2/app/manifests/v1", manifest_answer "sha256:aaa");
         ("https://source.example.com/v2/app/manifests/v2", manifest_answer "") ];
     target_get := serves
       [ ("https://target.example.com/v2/app/manifests/v1", manifest_answer "");
         ("https://target.example.com/v2/app/manifests/v2", manifest_answer "sha256:bbb") ];
     docker_login := fun _ _ _ => None |}.


(** ** What decides how a run ends, and what it prints and exports *)

(** [d.get(k, '')] *)
Definition field (k : string) (d : dict) : string := default "" (dict_get k d).

(** The lines lines 159-165 print for an entry. *)
Definition listed_commands (d : dict) : list string :=
  if str_eq (field "status" d) (image_status !!! 0%nat) then
    [ field "pull_command" d; field "retag_command" d; field "push_command" d;
      field "cleanup_source" d; field "cleanup_target" d; "" ]
  else [].

(** The line lines 173-174 print for an entry under a status message. *)
Definition listed_under (status_message : string) (d : dict) : list string :=
  if str_eq (field "status" d) status_message then
    [ field "image" d +:+ ":" +:+ field "tag" d ]
  else [].

(** Line 69 finds no error to report: no [errors] member, or an empty one. *)
Definition no_error_listed (j : body) : bool :=
  match j_errors j with
  | None | Some [] => true
  | Some (_ :: _) => false
  end.

(** Lines 79-86, 87-94: the login is skipped, or the daemon accepts it. *)
Definition logs_in (env : Env) (registry : string) (user password : option string) : bool :=
  if given user && given password then
    match docker_login env registry (default "" user) (default "" password) with
    | None => true
    | Some _ => false
    end
  else true.

(** Lines 68-94 do not end the run: the catalog is JSON, lists no error,
    and both logins pass. *)
Definition starts (args : Args) (env : Env) (c : response) : bool :=
  match json c with
  | Some j =>
      no_error_listed j &&
      logs_in env (source_registry args) (source_user args) (source_password args) &&
      logs_in env (target_registry args) (target_user args) (target_password args)
  | None => false
  end.

(** Every tag list of [repositories] is there and every manifest request
    of its tags returns. *)
Definition loop_returns (args : Args) (env : Env) (repositories : list string) : bool :=
  forallb
    (fun image =>
       match tag_list args env image with
       | Some tags =>
           forallb
             (fun tag =>
                match resolved args env (image, tag) with
                | Some _ => true
                | None => false
                end)
             tags
       | None => false
       end)
    repositories.

(** No request raises, no answer lacks what the script reads from it, and
    no login is refused. *)
Definition run_returns (args : Args) (env : Env) : bool :=
  match source_get env (source_registry args +:+ "/v2/_catalog") with
  | Some c =>
      starts args env c &&
      match json c with
      | Some j =>
          match j_repositories j with
          | Some repositories => loop_returns args env repositories
          | None => false
          end
      | None => false
      end
  | None => false
  end.

(** The state in which a run that built the entries [recs] returns. *)
Definition final_world (recs : list dict) : world :=
  World
    (header_record :: recs)
    (seq 0 (S (length recs)))
    ([ "CSV export completed"; ""; "These commands would run:" ] ++
     concat (map listed_commands recs) ++
     [ ""; image_status !!! 2%nat ] ++
     concat (map (listed_under (image_status !!! 2%nat)) recs))
    (Some (map (map snd) (header_record :: recs))).

(** A dictionary lines 119-134 build. *)
Definition entry_like (d : dict) : Prop :=
  exists args image tag source_digest target_digest,
    d = image_record args image tag source_digest target_digest.

(** Credentials for both registries; the daemon refuses those of
    [refused]. *)
Definition login_args : Args :=
  {| source_registry := "https://source.example.com";
     source_user := Some "alice"; source_password := Some "secret";
     target_registry := "https://target.example.com";
     target_user := Some "bob"; target_password := Some "hunter2" |}.

Definition refusing_env (refused : string) : Env :=
  {| source_get := source_get example_env;
     target_get := target_get example_env;
     docker_login := fun registry user password =>
       if str_eq user refused then Some "401 Client Error: Unauthorized" else None |}.

(** The catalog lists [empty], whose tag list is [null], and then [app]. *)
Definition null_tags_env : Env :=
  {| source_get := serves
       [ ("https://source.example.com/v2/_catalog", catalog_answer ["empty"; "app"]);
         ("https://source.example.com/v2/empty/tags/list",
          {| status_code := 200; headers := ∅;
             json := Some {| j_errors := None; j_repositories := None;
                             j_tags := Some None |} |});
         ("https://source.example.com/v2/app/tags/list", tags_answer ["v1"]) ];
     target_get := serves [];
     docker_login := fun _ _ _ => None |}.

(** The source cannot be reached. *)
Definition unreachable_env : Env :=
  {| source_get := fun _ => None;
     target_get := fun _ => None;
     docker_login := fun _ _ _ => None |}.

(** The source answers the catalog request with a JSON object that has
    neither [errors] nor [repositories]. *)
Definition no_repositories_env : Env :=
  {| source_get := serves [ ("https://source.example.com/v2/_catalog", tags_answer []) ];
     target_get := serves [];
     docker_login := fun _ _ _ => None |}.

(** The source answers the catalog request with a page that is not JSON. *)
Definition not_json_env : Env :=
  {| source_get := fun _ => Some {| status_code := 502; headers := ∅; json := None |};
     target_get := serves [];
     docker_login := fun _ _ _ => None |}.

(** The columns of the export, in order (lines 21-30). *)
Definition columns : list string :=
  [ "image"; "tag"; "source_digest"; "target_digest"; "status";
    "pull_command"; "retag_command"; "push_command"; "cleanup_source"; "cleanup_target" ].



(** The action returned, rather than raised. *)
Definition returns {A} (r : result A) : bool :=
  match r with
  | Ok _ => true
  | Raise _ => false
  end.

(** * Properties *)

(** ** Classification *)

Lemma status_message_inj s1 s2 : status_message s1 = status_message s2 -> s1 = s2.
Proof. destruct s1, s2; simpl; intros H; try reflexivity; discriminate H. Qed.

(** The three tests of lines 124-129 amount to one assignment. *)
Lemma store_status_classified (image_info : loc) (source_digest target_digest : string) :
  store_status image_info source_digest target_digest =
  setitem image_info "status"
    (status_message (classify (observation source_digest) (observation target_digest))).
Proof.
  unfold store_status, observation, str_eq.
  destruct target_digest as [|c t]; [by destruct source_digest|].
  destruct source_digest as [|b s]; [reflexivity|].
  cbn [truthy negb classify]. unfold str_eq.
  destruct (String.eqb (String b s) (String c t)); reflexivity.
Qed.

(** C1: the status stored for a pair of digests is the one the first-match
    rule gives for the two observations: MissingOnTarget when the target
    digest is absent, else InSync when both are present and equal, else
    Conflict (both present and unequal, or only the target present). *)
Theorem store_status_first_match (image_info : loc) (source_digest target_digest : string) :
  let source := observation source_digest in
  let target := observation target_digest in
  (store_status image_info source_digest target_digest =
     setitem image_info "status" (status_message (classify source target))) /\
  (target = Absent -> classify source target = MissingOnTarget) /\
  (forall d, source = Present d -> target = Present d -> classify source target = InSync) /\
  (forall d1 d2, source = Present d1 -> target = Present d2 -> d1 <> d2 ->
     classify source target = Conflict) /\
  (forall d, source = Absent -> target = Present d -> classify source target = Conflict).
Proof.
  cbv zeta. split; [apply store_status_classified|].
  repeat split.
  - intros ->. by destruct (observation source_digest).
  - intros d -> ->. cbn [classify]. unfold str_eq. by rewrite String.eqb_refl.
  - intros d1 d2 -> -> Hne. cbn [classify]. unfold str_eq.
    by destruct (String.eqb_spec d1 d2).
  - by intros d -> ->.
Qed.

Lemma setitem_blank x k v :
  heap (snd (setitem x k v (blank x))) !! x = Some [(k, v)].
Proof.
  unfold setitem, blank; simpl heap.
  change (alter (dict_set k v) x (replicate (S x) ([] : dict)) !! x = Some [(k, v)]).
  rewrite list_lookup_alter_eq, lookup_replicate_2 by lia. reflexivity.
Qed.

Lemma setitem_value_inj x k v1 v2 : setitem x k v1 = setitem x k v2 -> v1 = v2.
Proof.
  intros H. pose proof (setitem_blank x k v1) as H1. rewrite H in H1.
  rewrite setitem_blank in H1. congruence.
Qed.

(** C7: the classification is total and deterministic: for every pair of
    digests the three tests of lines 124-129 store exactly one status, one
    of MissingOnTarget, InSync and Conflict, and do nothing else. *)
Theorem store_status_total_unique (image_info : loc) (source_digest target_digest : string) :
  exists s : Status,
    store_status image_info source_digest target_digest =
      setitem image_info "status" (status_message s) /\
    forall s' : Status,
      store_status image_info source_digest target_digest =
        setitem image_info "status" (status_message s') -> s' = s.
Proof.
  exists (classify (observation source_digest) (observation target_digest)).
  split; [apply store_status_classified|].
  intros s' H. rewrite store_status_classified in H.
  apply setitem_value_inj in H. symmetry. by apply status_message_inj.
Qed.

(** ** Building an entry *)

Lemma alter_last {A} (f : A -> A) (l : list A) (d : A) :
  alter f (length l) (l ++ [d]) = l ++ [f d].
Proof. rewrite alter_app_r_alt by lia. by rewrite Nat.sub_diag. Qed.

(** A [setitem] on the dictionary allocated last. *)
Lemma setitem_last k v h d i o c :
  setitem (length h) k v (World (h ++ [d]) i o c) =
  (Ok tt, World (h ++ [dict_set k v d]) i o c).
Proof. unfold setitem, set_heap; simpl. by rewrite alter_last. Qed.

Lemma bind_new_dict {B} (f : loc -> M B) h i o c :
  bind new_dict f (World h i o c) = f (length h) (World (h ++ [[]]) i o c).
Proof. reflexivity. Qed.

Lemma bind_setitem_last {B} (f : unit -> M B) k v h d i o c :
  bind (setitem (length h) k v) f (World (h ++ [d]) i o c) =
  f tt (World (h ++ [dict_set k v d]) i o c).
Proof. unfold bind. by rewrite setitem_last. Qed.

Lemma header_entry_returns w :
  header_entry w = (Ok tt, push header_record w).
Proof.
  destruct w as [h i o c]. unfold header_entry.
  rewrite bind_new_dict, !bind_setitem_last. reflexivity.
Qed.

(** Lines 102-135 for an image and tag whose two manifest requests return:
    one dictionary is built and appended, nothing else changes. *)
Lemma process_tag_returns args env image tag rs rt w :
  source_get env (source_registry args +:+ "/v2/" +:+ image +:+ "/manifests/" +:+ tag) = Some rs ->
  target_get env (target_registry args +:+ "/v2/" +:+ image +:+ "/manifests/" +:+ tag) = Some rt ->
  process_tag args env image tag w =
  (Ok tt, push (image_record args image tag (digest_of rs) (digest_of rt)) w).
Proof.
  intros Hs Ht. destruct w as [h i o c].
  unfold process_tag, session_get. rewrite Hs, Ht.
  unfold bind at 1 2. unfold ret at 1 2.
  rewrite bind_new_dict, !bind_setitem_last.
  rewrite store_status_classified, !bind_setitem_last. reflexivity.
Qed.

(** ** The commands of an entry *)

Lemma getitem_record w x d k v :
  heap w !! x = Some d -> dict_get k d = Some v -> getitem x k w = (Ok v, w).
Proof. intros Hx Hk. unfold getitem. by rewrite Hx, Hk. Qed.

Lemma bind_getitem_print {B} (f : unit -> M B) w x d k v :
  heap w !! x = Some d -> dict_get k d = Some v ->
  bind (bind (getitem x k) (fun c => print c)) f w =
  f tt (set_stdout (stdout w ++ [v]) w).
Proof. intros Hx Hk. unfold bind. by rewrite (getitem_record w x d k v). Qed.

Lemma status_message_missing s :
  str_eq (status_message s) (image_status !!! 0%nat) =
  match s with MissingOnTarget => true | _ => false end.
Proof. by destruct s. Qed.

(** Lines 159-165 on an entry built by lines 119-134. *)
Lemma print_commands_record args image tag sd td w x :
  heap w !! x = Some (image_record args image tag sd td) ->
  print_commands x w =
  (Ok tt,
   set_stdout
     (stdout w ++
      match classify (observation sd) (observation td) with
      | MissingOnTarget =>
          [ "docker pull " +:+ image_ref (source_registry args) image tag;
            "docker tag " +:+ image_ref (source_registry args) image tag +:+ " "
              +:+ image_ref (target_registry args) image tag;
            "docker push " +:+ image_ref (target_registry args) image tag;
            "docker rmi " +:+ image_ref (source_registry args) image tag;
            "docker rmi " +:+ image_ref (target_registry args) image tag;
            "" ]
      | InSync | Conflict => []
      end)
     w).
Proof.
  intros Hx. unfold print_commands. unfold bind at 1.
  rewrite (getitem_record w x _ "status" _ Hx eq_refl).
  rewrite status_message_missing.
  destruct (classify (observation sd) (observation td)).
  - rewrite (bind_getitem_print _ w x _ "pull_command" _ Hx eq_refl).
    set (w1 := set_stdout _ w).
    rewrite (bind_getitem_print _ w1 x _ "retag_command" _ Hx eq_refl).
    set (w2 := set_stdout _ w1).
    rewrite (bind_getitem_print _ w2 x _ "push_command" _ Hx eq_refl).
    set (w3 := set_stdout _ w2).
    rewrite (bind_getitem_print _ w3 x _ "cleanup_source" _ Hx eq_refl).
    set (w4 := set_stdout _ w3).
    rewrite (bind_getitem_print _ w4 x _ "cleanup_target" _ Hx eq_refl).
    destruct w as [h i o c]. unfold print, set_stdout; simpl.
    by rewrite <- !app_assoc.
  - destruct w as [h i o c]. unfold ret, set_stdout; simpl. by rewrite app_nil_r.
  - destruct w as [h i o c]. unfold ret, set_stdout; simpl. by rewrite app_nil_r.
Qed.

(** ** The registry address without its scheme *)

Lemma match_scheme_cons c t :
  Re.match_here scheme_pattern (String c t) =
  if Re.atom_matches Re.Dot c then
    match Re.match_here scheme_pattern t with
    | Some rest => Some rest
    | None => Re.match_here separator_pattern (String c t)
    end
  else Re.match_here separator_pattern (String c t).
Proof. reflexivity. Qed.

Lemma match_separator_none text :
  String.prefix "://" text = false -> Re.match_here separator_pattern text = None.
Proof.
  destruct text as [|a [|b [|c r]]]; simpl; try reflexivity;
    repeat match goal with
    | |- context [Ascii.eqb ?x ?y] => destruct (Ascii.eqb_spec x y); subst; try reflexivity
    | |- context [ascii_dec ?x ?y] => destruct (ascii_dec x y); try congruence
    end.
  all: try discriminate.
  destruct r; discriminate.
Qed.

(** Where [://] does not occur the pattern matches at no position. *)
Lemma match_scheme_none text :
  has_separator text = false -> Re.match_here scheme_pattern text = None.
Proof.
  induction text as [|c t IH]; [reflexivity|].
  intros H. cbn [has_separator] in H. apply orb_false_iff in H as [Hp Ht].
  rewrite match_scheme_cons, (IH Ht), (match_separator_none _ Hp).
  by destruct (Re.atom_matches Re.Dot c).
Qed.

(** The greedy star stops at the last [://] of the line: here the only
    one, right after the scheme. *)
Lemma match_scheme_some scheme host :
  one_line scheme = true -> has_separator host = false ->
  Re.match_here scheme_pattern (scheme +:+ "://" +:+ host) = Some host.
Proof.
  intros Hl Hh. induction scheme as [|c s IH].
  - change ("" +:+ "://" +:+ host) with (String ":" (String "/" (String "/" host))).
    rewrite match_scheme_cons.
    rewrite (match_scheme_none (String "/" (String "/" host))).
    + reflexivity.
    + cbn [has_separator String.prefix]. by rewrite Hh.
  - cbn [one_line] in Hl. apply andb_true_iff in Hl as [Hc Hs].
    change (String c s +:+ "://" +:+ host) with (String c (s +:+ "://" +:+ host)).
    rewrite match_scheme_cons, (IH Hs).
    unfold Re.atom_matches. by rewrite Hc.
Qed.

Lemma sub_from_skip p repl a b :
  Re.sub_from (String.length a) p repl (a +:+ b) = Re.sub_from 0 p repl b.
Proof. induction a as [|c a IH]; [reflexivity|]. simpl. apply IH. Qed.

Lemma sub_no_separator host :
  has_separator host = false -> Re.sub_from 0 scheme_pattern "" host = host.
Proof.
  induction host as [|c t IH]; [reflexivity|].
  intros H. pose proof (match_scheme_none _ H) as Hm.
  cbn [has_separator] in H. apply orb_false_iff in H as [_ Ht].
  cbn [Re.sub_from]. rewrite Hm. by rewrite (IH Ht).
Qed.

Lemma length_append a b : String.length (a +:+ b) = String.length a + String.length b.
Proof. induction a as [|c a IH]; simpl; [reflexivity|]. by rewrite IH. Qed.

Lemma append_assoc a b c : (a +:+ b) +:+ c = a +:+ b +:+ c.
Proof. induction a as [|x a IH]; [reflexivity|]. exact (f_equal (String x) IH). Qed.

(** A match at the first position that covers [S k] characters. *)
Lemma sub_from_match p repl c t rest k :
  Re.match_here p (String c t) = Some rest ->
  String.length (String c t) - String.length rest = S k ->
  Re.sub_from 0 p repl (String c t) = repl +:+ Re.sub_from k p repl t.
Proof. intros Hm Hk. cbn [Re.sub_from]. by rewrite Hm, Hk. Qed.

(** X2: lines 113 and 114 leave an address in which [://] does not occur
    as it is. *)
Lemma plain_without_scheme (registry : string) :
  has_separator registry = false -> plain registry = registry.
Proof. apply sub_no_separator. Qed.

Lemma plain_without_scheme_witness : plain "registry:5000" = "registry:5000".
Proof. exact (plain_without_scheme "registry:5000" eq_refl). Defined.

(** Lines 113 and 114 on an address [scheme://host]: what is left is the
    host. *)
Lemma plain_scheme_host scheme host :
  one_line scheme = true -> has_separator host = false ->
  plain (scheme +:+ "://" +:+ host) = host.
Proof.
  intros Hl Hh. unfold plain, Re.sub.
  pose proof (match_scheme_some scheme host Hl Hh) as Hm.
  destruct scheme as [|c s].
  - rewrite (sub_from_match _ _ ":" ("//" +:+ host) host 2 Hm)
      by (change (3 + String.length host - String.length host = 3); lia).
    exact (eq_trans (sub_from_skip scheme_pattern "" "//" host) (sub_no_separator host Hh)).
  - rewrite (sub_from_match _ _ c (s +:+ "://" +:+ host) host (String.length (s +:+ "://")) Hm)
      by (change (S (String.length (s +:+ "://" +:+ host)) - String.length host =
                    S (String.length (s +:+ "://")));
          rewrite !length_append; change (String.length "://") with 3; lia).
    rewrite <- append_assoc, sub_from_skip. by rewrite sub_no_separator.
Qed.

(** ** The loops *)

Lemma for_each_app {A} (xs ys : list A) (body : A -> M unit) w :
  for_each (xs ++ ys) body w = (for_each xs body >> for_each ys body) w.
Proof.
  revert w. induction xs as [|x xs IH]; intros w; [reflexivity|].
  cbn [app for_each]. unfold bind.
  destruct (body x w) as [[[]|e] w1]; [|reflexivity]. apply IH.
Qed.

Lemma process_tag_cases args env image tag w :
  process_tag args env image tag w =
  match resolved args env (image, tag) with
  | Some d => (Ok tt, push d w)
  | None => (Raise RequestException, w)
  end.
Proof.
  unfold resolved; cbn [fst snd].
  destruct (source_get env _) as [rs|] eqn:Hs.
  - destruct (target_get env _) as [rt|] eqn:Ht.
    + by apply process_tag_returns.
    + unfold process_tag, session_get. by rewrite Hs, Ht.
  - unfold process_tag, session_get. by rewrite Hs.
Qed.

Lemma process_image_cases args env image w :
  match tag_list args env image with
  | Some tags =>
      process_image args env image w = for_each tags (process_tag args env image) w
  | None => exists e, process_image args env image w = (Raise e, w)
  end.
Proof.
  unfold tag_list, process_image, session_get.
  destruct (source_get env _) as [r|]; [|by eexists].
  destruct (json r) as [j|] eqn:Hj; [destruct (j_tags j) as [[l|]|] eqn:Hl|];
    cbv [bind ret raise response_json member iter]; rewrite Hj, ?Hl;
    first [reflexivity | by eexists].
Qed.

Lemma push_all_app ds1 ds2 w : push_all (ds1 ++ ds2) w = push_all ds2 (push_all ds1 w).
Proof. apply fold_left_app. Qed.

Lemma appends_for_each {A} args env (xs : list A) (body : A -> M unit) (f : A -> list (string * string)) :
  (forall x, appends args env (body x) (f x)) ->
  appends args env (for_each xs body) (concat (map f xs)).
Proof.
  intros Hbody. induction xs as [|x xs IH]; intros w.
  - exists (Ok tt), [], []. by repeat split.
  - cbn [for_each map concat]. unfold bind.
    destruct (Hbody x w) as (r & done & recs & -> & Hpre & Hrec & Hall).
    destruct r as [[]|e].
    + rewrite (Hall eq_refl) in Hrec.
      destruct (IH (push_all recs w)) as (r' & done' & recs' & -> & Hpre' & Hrec' & Hall').
      exists r', (f x ++ done'), (recs ++ recs'). rewrite push_all_app.
      repeat split.
      * by apply prefix_app.
      * by apply Forall2_app.
      * intros Hr. by rewrite (Hall' Hr).
    + exists (Raise e), done, recs. repeat split; [|done|done].
      destruct Hpre as [k ->]. exists (k ++ concat (map f xs)). by rewrite app_assoc.
Qed.

Lemma appends_process_tag args env image tag :
  appends args env (process_tag args env image tag) [(image, tag)].
Proof.
  intros w. rewrite process_tag_cases.
  destruct (resolved args env (image, tag)) as [d|] eqn:Hd.
  - exists (Ok tt), [(image, tag)], [d]. repeat split; [done|by constructor].
  - exists (Raise RequestException), [], []. repeat split; [apply prefix_nil|constructor|done].
Qed.

Lemma appends_process_image args env image :
  appends args env (process_image args env image)
    (map (pair image) (default [] (tag_list args env image))).
Proof.
  intros w. pose proof (process_image_cases args env image w) as H.
  destruct (tag_list args env image) as [tags|].
  - change (default [] (Some tags)) with tags. rewrite H. clear H.
    replace (map (pair image) tags) with (concat (map (fun tag => [(image, tag)]) tags))
      by (induction tags as [|t l IH]; [reflexivity | cbn; by rewrite IH]).
    apply (appends_for_each args env tags (process_tag args env image)
             (fun tag => [(image, tag)])).
    intros tag. apply appends_process_tag.
  - destruct H as [e ->]. exists (Raise e), [], []. by repeat split.
Qed.

Lemma appends_repositories args env repositories :
  appends args env (for_each repositories (process_image args env))
    (identities args env repositories).
Proof. apply appends_for_each. intros image. apply appends_process_image. Qed.

(** ** Actions that leave the store alone, actions that add entries to it *)

Lemma keeps_ret {A} (a : A) : keeps_store (ret a).
Proof. by intros w. Qed.

Lemma keeps_raise {A} e : keeps_store (@raise A e).
Proof. by intros w. Qed.

Lemma keeps_print line : keeps_store (print line).
Proof. by intros w. Qed.

Lemma keeps_get_images : keeps_store get_images.
Proof. by intros w. Qed.

Lemma keeps_csv_open : keeps_store csv_open.
Proof. by intros w. Qed.

Lemma keeps_keys_of x : keeps_store (keys_of x).
Proof. by intros w. Qed.

Lemma keeps_getitem x k : keeps_store (getitem x k).
Proof.
  intros w. unfold getitem. destruct (heap w !! x) as [d|]; [|done].
  by destruct (dict_get k d).
Qed.

Lemma keeps_csv_writerow fields x : keeps_store (csv_writerow fields x).
Proof. intros w. unfold csv_writerow. by destruct (forallb _ _). Qed.

Lemma keeps_session_get get url : keeps_store (session_get get url).
Proof. unfold session_get. destruct (get url); [apply keeps_ret | apply keeps_raise]. Qed.

Lemma keeps_response_json r : keeps_store (response_json r).
Proof. unfold response_json. destruct (json r); [apply keeps_ret | apply keeps_raise]. Qed.

Lemma keeps_member {A} k (m : option A) : keeps_store (member k m).
Proof. destruct m; [apply keeps_ret | apply keeps_raise]. Qed.

Lemma keeps_bind {A B} (m : M A) (f : A -> M B) :
  keeps_store m -> (forall a, keeps_store (f a)) -> keeps_store (bind m f).
Proof.
  intros Hm Hf w. unfold bind. specialize (Hm w).
  destruct (m w) as [[a|e] w1]; cbn [snd] in *; [|done].
  destruct (Hf a w1) as [H1 H2]. destruct Hm as [H3 H4]. split; congruence.
Qed.

Lemma keeps_for_each {A} (xs : list A) (body : A -> M unit) :
  (forall x, keeps_store (body x)) -> keeps_store (for_each xs body).
Proof.
  intros Hb. induction xs as [|x xs IH]; [apply keeps_ret|].
  cbn [for_each]. apply keeps_bind; [apply Hb | by intros _].
Qed.

Create HintDb keeps.
#[local] Hint Resolve keeps_ret keeps_raise keeps_print keeps_get_images keeps_csv_open
  keeps_keys_of keeps_getitem keeps_csv_writerow keeps_session_get keeps_response_json
  keeps_member : keeps.

Ltac keeps :=
  repeat first
    [ apply keeps_bind; [|intros ?]
    | apply keeps_for_each; intros ?
    | progress auto with keeps
    | match goal with |- keeps_store (if ?b then _ else _) => destruct b end
    | match goal with |- keeps_store (match ?o with _ => _ end) => destruct o end ].

Lemma keeps_catalog_errors args c : keeps_store (catalog_errors args c).
Proof. unfold catalog_errors, exit. keeps. Qed.

Lemma keeps_login env registry user password : keeps_store (login env registry user password).
Proof. unfold login, exit. keeps. Qed.

Lemma keeps_csv_export : keeps_store csv_export.
Proof. unfold csv_export. keeps. Qed.

Lemma keeps_print_commands x : keeps_store (print_commands x).
Proof. unfold print_commands. keeps. Qed.

Lemma keeps_print_if_status s x : keeps_store (print_if_status s x).
Proof. unfold print_if_status. keeps. Qed.

Lemma keeps_report_commands : keeps_store report_commands.
Proof.
  unfold report_commands, exit. destruct dry_run; [|apply keeps_raise].
  keeps; first [apply keeps_print_commands | apply keeps_print_if_status].
Qed.

Lemma push_all_store recs w :
  heap (push_all recs w) = heap w ++ recs /\
  images (push_all recs w) = images w ++ seq (length (heap w)) (length recs).
Proof.
  revert w. induction recs as [|d recs IH]; intros w.
  - cbn. by rewrite !app_nil_r.
  - cbn [push_all fold_left]. destruct (IH (push d w)) as [H1 H2].
    fold (push_all recs (push d w)). rewrite H1, H2. cbn [push heap images length seq].
    rewrite length_app, <- !app_assoc. cbn [length app].
    by rewrite Nat.add_1_r.
Qed.

Lemma grows_appends args env m ids : appends args env m ids -> grows args env m ids.
Proof.
  intros H w. destruct (H w) as (r & done & recs & Hm & Hpre & Hrec & Hall).
  exists done, recs. rewrite Hm. cbn [fst snd].
  destruct (push_all_store recs w) as [H1 H2]. by repeat split.
Qed.

Lemma grows_nothing args env ids (m : M unit) :
  keeps_store m -> (forall w, fst (m w) <> Ok tt) -> grows args env m ids.
Proof.
  intros Hk Hr w. exists [], []. destruct (Hk w) as [H1 H2].
  rewrite H1, H2, !app_nil_r. repeat split; [apply prefix_nil|constructor|].
  intros H. by destruct (Hr w).
Qed.

Lemma grows_bind_keeps {A} args env (m : M A) (f : A -> M unit) ids :
  keeps_store m -> (forall a, grows args env (f a) ids) -> grows args env (bind m f) ids.
Proof.
  intros Hk Hf w. unfold bind. destruct (Hk w) as [H1 H2].
  destruct (m w) as [[a|e] w1]; cbn [snd] in *.
  - destruct (Hf a w1) as (done & recs & Hh & Hi & Hrest).
    exists done, recs. rewrite Hh, Hi, H1, H2. by split.
  - exists [], []. cbn [fst snd]. rewrite H1, H2, !app_nil_r.
    repeat split; [apply prefix_nil|constructor|discriminate].
Qed.

Lemma grows_then_keeps args env (m1 m2 : M unit) ids :
  grows args env m1 ids -> keeps_store m2 -> grows args env (m1 >> m2) ids.
Proof.
  intros Hg Hk w. unfold bind.
  destruct (Hg w) as (done & recs & Hh & Hi & Hpre & Hrec & Hall).
  destruct (m1 w) as [[[]|e] w1]; cbn [fst snd] in *.
  - destruct (Hk w1) as [H1 H2]. exists done, recs. rewrite H1, H2.
    repeat split; try done. intros _. by apply Hall.
  - exists done, recs. cbn [fst snd]. repeat split; try done.
Qed.

(** The references of [images] still read the same dictionaries after the
    store has grown, and the new references read the new ones. *)
Lemma report_grown w w' recs :
  wf w ->
  heap w' = heap w ++ recs ->
  images w' = images w ++ seq (length (heap w)) (length recs) ->
  wf w' /\ report w' = report w ++ map Some recs.
Proof.
  unfold wf, report. intros Hwf Hh Hi. rewrite Hh, Hi. split.
  - apply Forall_app. split.
    + eapply Forall_impl; [exact Hwf|]. intros x Hx. cbn beta in *. rewrite length_app. lia.
    + apply Forall_forall. intros x Hx%elem_of_seq. rewrite length_app. lia.
  - rewrite map_app. f_equal.
    + apply map_ext_Forall. eapply Forall_impl; [exact Hwf|].
      intros x Hx. cbn beta in *. by apply lookup_app_l.
    + clear. generalize (heap w). intros h. revert h.
      induction recs as [|d recs IH]; intros h; [reflexivity|].
      cbn [length seq map]. f_equal.
      * by rewrite list_lookup_middle.
      * specialize (IH (h ++ [d])). rewrite length_app, <- app_assoc in IH.
        cbn [length app] in IH. rewrite Nat.add_1_r in IH. exact IH.
Qed.

(** ** The run, phase by phase *)

Lemma set_stdout_nil w : w = set_stdout (stdout w ++ []) w.
Proof. destruct w. unfold set_stdout; cbn. by rewrite app_nil_r. Qed.

Lemma prints_ret {A} (a : A) : only_prints (ret a).
Proof. intros w. exists []. apply set_stdout_nil. Qed.

Lemma prints_raise {A} e : only_prints (@raise A e).
Proof. intros w. exists []. apply set_stdout_nil. Qed.

Lemma prints_print line : only_prints (print line).
Proof. intros w. by exists [line]. Qed.

Lemma prints_bind {A B} (m : M A) (f : A -> M B) :
  only_prints m -> (forall a, only_prints (f a)) -> only_prints (bind m f).
Proof.
  intros Hm Hf w. unfold bind. destruct (Hm w) as [out Hout].
  destruct (m w) as [[a|e] w1]; cbn [snd] in *; [|by exists out].
  destruct (Hf a w1) as [out' ->]. subst w1. exists (out ++ out').
  destruct w. unfold set_stdout; cbn. by rewrite app_assoc.
Qed.

Lemma prints_for_each {A} (xs : list A) (body : A -> M unit) :
  (forall x, only_prints (body x)) -> only_prints (for_each xs body).
Proof.
  intros Hb. induction xs as [|x xs IH]; [apply prints_ret|].
  cbn [for_each]. apply prints_bind; [apply Hb | by intros _].
Qed.

Lemma prints_catalog_errors args c : only_prints (catalog_errors args c).
Proof.
  unfold catalog_errors, response_json, exit.
  destruct (json c) as [j|]; [|apply prints_raise].
  change (only_prints
    match j_errors j with
    | Some errors =>
        for_each errors (fun error =>
          print "" >>
          print ("Error connecting to " +:+ source_registry args +:+ ":") >>
          print (code error +:+ ": " +:+ message error) >> raise (SystemExit 1))
    | None => ret tt
    end).
  destruct (j_errors j); [|apply prints_ret].
  apply prints_for_each. intros error.
  repeat (apply prints_bind; [apply prints_print | intros _]). apply prints_raise.
Qed.

Lemma prints_login env registry user password :
  only_prints (login env registry user password).
Proof.
  unfold login, exit. destruct (given user && given password); [|apply prints_ret].
  destruct (docker_login _ _ _ _); [|apply prints_ret].
  repeat (apply prints_bind; [apply prints_print | intros _]). apply prints_raise.
Qed.

Lemma bind_apply {A B} (m : M A) (f : A -> M B) w :
  bind m f w =
  match m w with
  | (Ok a, w') => f a w'
  | (Raise e, w') => (Raise e, w')
  end.
Proof. reflexivity. Qed.

Lemma bind_ret {A B} (a : A) (f : A -> M B) w : bind (ret a) f w = f a w.
Proof. reflexivity. Qed.

Lemma bind_assoc {A B C} (m : M A) (f : A -> M B) (g : B -> M C) w :
  bind (bind m f) g w = bind m (fun a => bind (f a) g) w.
Proof. unfold bind. by destruct (m w) as [[a|e] w1]. Qed.

Lemma before_loop_then {B} args env c (rest : M B) w :
  (catalog_errors args c >>
   login env (source_registry args) (source_user args) (source_password args) >>
   login env (target_registry args) (target_user args) (target_password args) >>
   rest) w =
  (before_loop args env c >> rest) w.
Proof.
  unfold before_loop. rewrite bind_assoc. unfold bind at 1 4.
  destruct (catalog_errors args c w) as [[[]|e] w1]; [|reflexivity].
  by rewrite bind_assoc.
Qed.

Lemma prints_before_loop args env c : only_prints (before_loop args env c).
Proof.
  unfold before_loop.
  apply prints_bind; [apply prints_catalog_errors | intros _].
  apply prints_bind; [apply prints_login | intros _]. apply prints_login.
Qed.

(** A run whose catalog request returns a list of repositories: either it
    ends before the loop, having printed only, or it is the loop followed,
    when the loop returns, by the export and the listing. *)
Lemma run_phases args env c j repositories :
  source_get env (source_registry args +:+ "/v2/_catalog") = Some c ->
  json c = Some j ->
  j_repositories j = Some repositories ->
  exists out,
    let w1 := set_stdout out (push header_record initial_world) in
    (exists e, run args env = (Raise e, w1)) \/
    run args env =
      match for_each repositories (process_image args env) w1 with
      | (Ok _, w2) => (csv_export >> report_commands) w2
      | (Raise e, w2) => (Raise e, w2)
      end.
Proof.
  intros Hc Hj Hr. unfold run, main.
  rewrite bind_apply, header_entry_returns. unfold session_get. rewrite Hc.
  rewrite bind_ret, before_loop_then, bind_apply.
  destruct (prints_before_loop args env c (push header_record initial_world)) as [out Hout].
  exists out. cbv zeta.
  destruct (before_loop args env c (push header_record initial_world)) as [[[]|e] w1];
    cbn [snd] in Hout; subst w1; [right | left; by exists e].
  rewrite bind_apply. unfold process_catalog, response_json, member. rewrite Hj.
  rewrite bind_ret, Hr, bind_ret. reflexivity.
Qed.

(** ** The report of a run *)

Lemma grows_process_catalog args env c :
  grows args env (process_catalog args env c)
    (identities args env
       match json c with Some j => default [] (j_repositories j) | None => [] end).
Proof.
  unfold process_catalog, response_json.
  destruct (json c) as [j|].
  - intros w. rewrite bind_ret. revert w. unfold member.
    destruct (j_repositories j) as [repositories|].
    + intros w. rewrite bind_ret. revert w.
      apply grows_appends, appends_repositories.
    + apply grows_nothing; [apply keeps_raise | by intros w].
  - apply grows_nothing; [apply keeps_raise | by intros w].
Qed.

Lemma grows_after_header args env :
  grows args env
    (let* source_catalog :=
       session_get (source_get env) (source_registry args +:+ "/v2/_catalog") in
     catalog_errors args source_catalog >>
     login env (source_registry args) (source_user args) (source_password args) >>
     login env (target_registry args) (target_user args) (target_password args) >>
     process_catalog args env source_catalog >>
     (if csv_write then csv_export else ret tt) >>
     report_commands)
    (enumeration args env).
Proof.
  unfold enumeration, catalog_repositories, session_get.
  destruct (source_get env _) as [c|].
  - intros w. rewrite bind_ret. revert w.
    apply grows_bind_keeps; [apply keeps_catalog_errors | intros _].
    apply grows_bind_keeps; [apply keeps_login | intros _].
    apply grows_bind_keeps; [apply keeps_login | intros _].
    apply grows_then_keeps; [apply grows_process_catalog|].
    apply keeps_bind; [apply keeps_csv_export | intros _; apply keeps_report_commands].
  - apply grows_nothing; [apply keeps_raise | by intros w].
Qed.

Lemma wf_header : wf (push header_record initial_world).
Proof. repeat constructor. Qed.

(** In every run, however it ends, [images] holds the header entry and
    then the entries of an initial segment of the enumeration, in order;
    the whole enumeration when the run returns. *)
Lemma run_report args env r w :
  run args env = (r, w) ->
  exists done recs,
    report w = Some header_record :: map Some recs /\
    Forall2 (fun id d => resolved args env id = Some d) done recs /\
    done `prefix_of` enumeration args env /\
    (r = Ok tt -> done = enumeration args env).
Proof.
  unfold run, main. rewrite bind_apply, header_entry_returns. intros Hrun.
  destruct (grows_after_header args env (push header_record initial_world))
    as (done & recs & Hh & Hi & Hpre & Hrec & Hall).
  rewrite Hrun in Hh, Hi, Hall. cbn [fst snd] in *.
  exists done, recs.
  destruct (report_grown _ w recs wf_header Hh Hi) as [_ ->].
  by repeat split.
Qed.

Lemma append_only_grows args env m ids : grows args env m ids -> append_only m.
Proof.
  intros Hg w Hwf. destruct (Hg w) as (done & recs & Hh & Hi & _).
  destruct (report_grown w _ recs Hwf Hh Hi) as [Hwf' ->].
  split; [done | by eexists].
Qed.

Lemma append_only_keeps {A} (m : M A) : keeps_store m -> append_only m.
Proof.
  intros Hk w Hwf. destruct (Hk w) as [Hh Hi].
  unfold wf, report in *. rewrite Hh, Hi. by split.
Qed.

(** ** The scenarios, run *)

Example sub_https :
  Re.sub scheme_pattern "" "https://source.example.com" = "source.example.com".
Proof. reflexivity. Qed.

Example sub_no_scheme : Re.sub scheme_pattern "" "registry:5000" = "registry:5000".
Proof. reflexivity. Qed.

Example sub_last_separator : Re.sub scheme_pattern "" "a://b://c" = "c".
Proof. reflexivity. Qed.

Example run_example_statuses :
  map (fun e => e ≫= dict_get "status") (report (snd (run example_args example_env))) =
  [ Some "Status";
    Some "Image doesn't exist on target";
    Some "Image already present on target";
    Some "Conflict: same tag exist in both registries with different digest" ].
Proof. vm_compute. reflexivity. Qed.

Example run_example_stdout :
  stdout (snd (run example_args example_env)) =
  [ "CSV export completed"; ""; "These commands would run:";
    "docker pull source.example.com/app:v1";
    "docker tag source.example.com/app:v1 target.example.com/app:v1";
    "docker push target.example.com/app:v1";
    "docker rmi source.example.com/app:v1";
    "docker rmi target.example.com/app:v1"; ""; "";
    "Conflict: same tag exist in both registries with different digest";
    "app:v3" ].
Proof. vm_compute. reflexivity. Qed.

(** ** The catalog *)

(** C5: when the source answers the catalog request with an error payload
    (an [errors] member that lists an error), the run ends at once with
    [exit(1)], having printed a blank line, the address of the registry
    and the code and message of the error; [images] holds the header entry
    only and nothing is exported. *)
Theorem catalog_error_aborts (args : Args) (env : Env) (c : response) (j : body)
    (error : registry_error) (others : list registry_error) :
  source_get env (source_registry args +:+ "/v2/_catalog") = Some c ->
  json c = Some j ->
  j_errors j = Some (error :: others) ->
  run args env =
    (Raise (SystemExit 1),
     World [header_record] [0%nat]
       [ "";
         "Error connecting to " +:+ source_registry args +:+ ":";
         code error +:+ ": " +:+ message error ]
       None) /\
  report (snd (run args env)) = [Some header_record].
Proof.
  intros Hc Hj He.
  assert (run args env =
    (Raise (SystemExit 1),
     World [header_record] [0%nat]
       [ ""; "Error connecting to " +:+ source_registry args +:+ ":";
         code error +:+ ": " +:+ message error ] None)) as Hrun.
  { unfold run, main. rewrite bind_apply, header_entry_returns.
    unfold session_get. rewrite Hc. rewrite bind_ret, bind_apply.
    unfold catalog_errors, response_json. rewrite Hj. rewrite bind_ret, He.
    reflexivity. }
  split; [exact Hrun|]. by rewrite Hrun.
Qed.

Lemma catalog_error_aborts_witness :
  run example_args unauthorized_env =
    (Raise (SystemExit 1),
     World [header_record] [0%nat]
       [ ""; "Error connecting to https://source.example.com:";
         "UNAUTHORIZED: authentication required" ]
       None).
Proof.
  exact (proj1 (catalog_error_aborts example_args unauthorized_env
                  (error_answer 401 "UNAUTHORIZED" "authentication required")
                  {| j_errors := Some [ {| code := "UNAUTHORIZED";
                                           message := "authentication required" |} ];
                     j_repositories := None; j_tags := None |}
                  {| code := "UNAUTHORIZED"; message := "authentication required" |}
                  [] eq_refl eq_refl eq_refl)).
Defined.

(** X1: an [errors] member that lists nothing ends nothing: the body of
    the [for] of line 70, where the [exit(1)] is, does not run, and lines
    69-74 neither print nor exit. *)
Lemma catalog_no_error_listed (args : Args) (c : response) (j : body) (w : world) :
  json c = Some j -> j_errors j = Some [] -> catalog_errors args c w = (Ok tt, w).
Proof.
  intros Hj He. unfold catalog_errors, response_json. rewrite Hj, bind_ret, He.
  reflexivity.
Qed.

Lemma catalog_no_error_listed_witness :
  catalog_errors example_args
    {| status_code := 200; headers := ∅;
       json := Some {| j_errors := Some []; j_repositories := Some ["app"];
                       j_tags := None |} |}
    initial_world = (Ok tt, initial_world).
Proof.
  exact (catalog_no_error_listed example_args
           {| status_code := 200; headers := ∅;
              json := Some {| j_errors := Some []; j_repositories := Some ["app"];
                              j_tags := None |} |}
           {| j_errors := Some []; j_repositories := Some ["app"]; j_tags := None |}
           initial_world eq_refl eq_refl).
Defined.

(** ** The digest of a manifest *)

(** C6, amended: whatever the status code, the digest the script keeps
    reads as Present(d) exactly when the answer has the digest header with
    the non-empty value d, and as Absent exactly when the header is missing
    or its value is empty. *)
Theorem digest_present_iff_nonempty_header (status : Z) (h : gmap string string)
    (j : option body) :
  let r := {| status_code := status; headers := h; json := j |} in
  (forall d,
     observation (digest_of r) = Present d <->
     h !! "docker-content-digest" = Some d /\ d <> "") /\
  (observation (digest_of r) = Absent <->
   h !! "docker-content-digest" = None \/ h !! "docker-content-digest" = Some "").
Proof.
  cbv zeta. unfold digest_of, observation. cbn [headers].
  destruct (h !! "docker-content-digest") as [[|a v]|]; cbn [truthy].
  - split; [intros d|]; split; try done.
    + by intros [[= <-] ?].
    + by right.
  - split; [intros d|]; split; try done.
    + by intros [= <-].
    + by intros [[= <-] _].
    + by intros [|].
  - split; [intros d|]; split; try done.
    + by intros [? _].
    + by left.
Qed.

(** C6 as stated fails where the header is there with an empty value: the
    script keeps the same digest as for an answer without the header, and
    it reads as Absent. *)
Lemma empty_header_counterexample :
  let r := {| status_code := 200; headers := {[ "docker-content-digest" := "" ]};
              json := None |} in
  let r0 := {| status_code := 200; headers := ∅; json := None |} in
  headers r !! "docker-content-digest" = Some "" /\
  headers r0 !! "docker-content-digest" = None /\
  digest_of r = digest_of r0 /\
  observation (digest_of r) = Absent.
Proof. cbv zeta. by vm_compute. Qed.

(** No reading of the digest the script keeps tells the two answers
    apart. *)
Lemma no_decoding_separates_empty_header (decode : string -> DigestObservation) :
  ~ (forall r : response,
       (is_Some (headers r !! "docker-content-digest") <->
        exists d, decode (digest_of r) = Present d) /\
       (headers r !! "docker-content-digest" = None <-> decode (digest_of r) = Absent)).
Proof.
  intros H.
  destruct (H {| status_code := 200; headers := {[ "docker-content-digest" := "" ]};
                 json := None |}) as [[H1 _] _].
  destruct (H {| status_code := 200; headers := ∅; json := None |}) as [_ [H2 _]].
  destruct H1 as [d Hd]; [by eexists|].
  specialize (H2 eq_refl).
  change (decode "" = Present d) in Hd. change (decode "" = Absent) in H2. congruence.
Qed.

(** ** The entry of an image and tag *)

Lemma process_tag_ok_inv args env image tag w :
  fst (process_tag args env image tag w) = Ok tt ->
  exists rs rt,
    source_get env (source_registry args +:+ "/v2/" +:+ image +:+ "/manifests/" +:+ tag) = Some rs /\
    target_get env (target_registry args +:+ "/v2/" +:+ image +:+ "/manifests/" +:+ tag) = Some rt /\
    process_tag args env image tag w =
      (Ok tt, push (image_record args image tag (digest_of rs) (digest_of rt)) w).
Proof.
  intros H.
  destruct (source_get env (source_registry args +:+ "/v2/" +:+ image +:+ "/manifests/" +:+ tag))
    as [rs|] eqn:Hs;
  [destruct (target_get env (target_registry args +:+ "/v2/" +:+ image +:+ "/manifests/" +:+ tag))
     as [rt|] eqn:Ht|].
  - exists rs, rt. repeat split. by apply process_tag_returns.
  - unfold process_tag, session_get in H. by rewrite Hs, Ht in H.
  - unfold process_tag, session_get in H. by rewrite Hs in H.
Qed.

Lemma lookup_pushed d w h :
  heap (push d w) `prefix_of` h -> h !! length (heap w) = Some d.
Proof. intros [k ->]. cbn [push heap]. rewrite <- app_assoc. by apply list_lookup_middle. Qed.

(** C8: for registry addresses of the form scheme://host (a scheme without
    a newline, a host in which [://] does not occur) and every image and
    tag, the five commands of the entry name the images as host/image:tag,
    without the scheme. *)
Theorem commands_name_scheme_stripped_images (args : Args) (env : Env)
    (source_scheme source_host target_scheme target_host image tag : string) (w : world) :
  source_registry args = source_scheme +:+ "://" +:+ source_host ->
  target_registry args = target_scheme +:+ "://" +:+ target_host ->
  one_line source_scheme = true -> has_separator source_host = false ->
  one_line target_scheme = true -> has_separator target_host = false ->
  fst (process_tag args env image tag w) = Ok tt ->
  let w' := snd (process_tag args env image tag w) in
  let entry := length (heap w) in
  let source_image := source_host +:+ "/" +:+ image +:+ ":" +:+ tag in
  let target_image := target_host +:+ "/" +:+ image +:+ ":" +:+ tag in
  images w' = images w ++ [entry] /\
  getitem entry "pull_command" w' = (Ok ("docker pull " +:+ source_image), w') /\
  getitem entry "retag_command" w' =
    (Ok ("docker tag " +:+ source_image +:+ " " +:+ target_image), w') /\
  getitem entry "push_command" w' = (Ok ("docker push " +:+ target_image), w') /\
  getitem entry "cleanup_source" w' = (Ok ("docker rmi " +:+ source_image), w') /\
  getitem entry "cleanup_target" w' = (Ok ("docker rmi " +:+ target_image), w').
Proof.
  intros Hs Ht Hs1 Hs2 Ht1 Ht2 Hok. cbv zeta.
  destruct (process_tag_ok_inv _ _ _ _ _ Hok) as (rs & rt & _ & _ & ->). cbn [snd].
  unfold image_record, image_ref.
  rewrite Hs, Ht, (plain_scheme_host _ _ Hs1 Hs2), (plain_scheme_host _ _ Ht1 Ht2).
  match goal with |- context [push ?d w] =>
    pose proof (lookup_pushed d w _ (reflexivity _)) as Hd
  end.
  split; [reflexivity|].
  repeat split; by apply (getitem_record _ _ _ _ _ Hd).
Qed.

(** The scenario of the specification: the push step of [app:v1] names
    [target.example.com/app:v1]. *)
Lemma commands_name_scheme_stripped_images_witness :
  let w' := snd (process_tag example_args example_env "app" "v1"
                   (push header_record initial_world)) in
  getitem 1 "push_command" w' = (Ok "docker push target.example.com/app:v1", w').
Proof.
  exact (proj1 (proj2 (proj2 (proj2
    (commands_name_scheme_stripped_images example_args example_env
       "https" "source.example.com" "https" "target.example.com" "app" "v1"
       (push header_record initial_world)
       eq_refl eq_refl eq_refl eq_refl eq_refl eq_refl eq_refl))))).
Defined.

Lemma digest_of_empty_or_missing r :
  headers r !! "docker-content-digest" = Some "" \/
  headers r !! "docker-content-digest" = None ->
  digest_of r = "".
Proof. unfold digest_of. by intros [-> | ->]. Qed.

(** C10: a digest header with the empty string as its value is classified
    as a missing header is. With such a target header the entry is the one
    built for a target without the header: its status is MissingOnTarget and
    the five transfer steps are listed for it. With such a source header
    and a non-empty target digest the entry is the one built for a source
    without the header: its status is Conflict, and no step is listed. *)
Theorem empty_digest_header_as_missing (args : Args) (env : Env) (image tag : string)
    (rs rt : response) (w : world) :
  source_get env (source_registry args +:+ "/v2/" +:+ image +:+ "/manifests/" +:+ tag) = Some rs ->
  target_get env (target_registry args +:+ "/v2/" +:+ image +:+ "/manifests/" +:+ tag) = Some rt ->
  let entry := length (heap w) in
  let source_image := image_ref (source_registry args) image tag in
  let target_image := image_ref (target_registry args) image tag in
  (headers rt !! "docker-content-digest" = Some "" \/
   headers rt !! "docker-content-digest" = None ->
   exists w',
     process_tag args env image tag w = (Ok tt, w') /\
     w' = push (image_record args image tag (digest_of rs) "") w /\
     getitem entry "status" w' = (Ok (status_message MissingOnTarget), w') /\
     print_commands entry w' =
       (Ok tt,
        set_stdout
          (stdout w' ++
           [ "docker pull " +:+ source_image;
             "docker tag " +:+ source_image +:+ " " +:+ target_image;
             "docker push " +:+ target_image;
             "docker rmi " +:+ source_image;
             "docker rmi " +:+ target_image;
             "" ])
          w')) /\
  (headers rs !! "docker-content-digest" = Some "" \/
   headers rs !! "docker-content-digest" = None ->
   forall d, headers rt !! "docker-content-digest" = Some d -> d <> "" ->
   exists w',
     process_tag args env image tag w = (Ok tt, w') /\
     w' = push (image_record args image tag "" d) w /\
     getitem entry "status" w' = (Ok (status_message Conflict), w') /\
     print_commands entry w' = (Ok tt, set_stdout (stdout w' ++ []) w')).
Proof.
  intros Hs Ht. cbv zeta. split.
  - intros Hempty. eexists. split; [by apply process_tag_returns|].
    rewrite (digest_of_empty_or_missing rt Hempty).
    split; [reflexivity|].
    pose proof (lookup_pushed (image_record args image tag (digest_of rs) "") w _
                  (reflexivity _)) as Hd.
    split.
    + apply (getitem_record _ _ _ "status" _ Hd). cbn [image_record dict_get str_eq].
      unfold observation at 2. cbn [truthy].
      by destruct (observation (digest_of rs)).
    + rewrite (print_commands_record _ _ _ _ _ _ _ Hd).
      unfold observation at 2. cbn [truthy].
      by destruct (observation (digest_of rs)).
  - intros Hempty d Hd Hne. eexists. split; [by apply process_tag_returns|].
    rewrite (digest_of_empty_or_missing rs Hempty).
    assert (digest_of rt = d) as -> by (unfold digest_of; by rewrite Hd).
    split; [reflexivity|].
    pose proof (lookup_pushed (image_record args image tag "" d) w _ (reflexivity _)) as Hl.
    destruct d as [|a d]; [done|].
    split.
    + by apply (getitem_record _ _ _ "status" _ Hl).
    + by rewrite (print_commands_record _ _ _ _ _ _ _ Hl).
Qed.

Lemma empty_digest_header_as_missing_witness :
  let w := push header_record initial_world in
  (exists w',
     process_tag example_args empty_header_env "app" "v1" w = (Ok tt, w') /\
     w' = push (image_record example_args "app" "v1" "sha256:aaa" "") w /\
     getitem 1 "status" w' = (Ok "Image doesn't exist on target", w') /\
     print_commands 1 w' =
       (Ok tt,
        set_stdout
          (stdout w' ++
           [ "docker pull source.example.com/app:v1";
             "docker tag source.example.com/app:v1 target.example.com/app:v1";
             "docker push target.example.com/app:v1";
             "docker rmi source.example.com/app:v1";
             "docker rmi target.example.com/app:v1";
             "" ])
          w')) /\
  (exists w',
     process_tag example_args empty_header_env "app" "v2" w = (Ok tt, w') /\
     w' = push (image_record example_args "app" "v2" "" "sha256:bbb") w /\
     getitem 1 "status" w' =
       (Ok "Conflict: same tag exist in both registries with different digest", w') /\
     print_commands 1 w' = (Ok tt, set_stdout (stdout w' ++ []) w')).
Proof.
  split.
  - exact (proj1 (empty_digest_header_as_missing example_args empty_header_env "app" "v1"
                    (manifest_answer "sha256:aaa") (manifest_answer "")
                    (push header_record initial_world) eq_refl eq_refl)
                 (or_introl eq_refl)).
  - exact (proj2 (empty_digest_header_as_missing example_args empty_header_env "app" "v2"
                    (manifest_answer "") (manifest_answer "sha256:bbb")
                    (push header_record initial_world) eq_refl eq_refl)
                 (or_introl eq_refl) "sha256:bbb" eq_refl
                 (fun H => eq_ind "sha256:bbb"
                             (fun s => match s with EmptyString => False | String _ _ => True end)
                             I "" H)).
Defined.

(** ** Requests that fail *)


Lemma csv_file_push_all recs w : csv_file (push_all recs w) = csv_file w.
Proof. revert w. induction recs as [|d recs IH]; intros w; [done|]. cbn. by rewrite IH. Qed.

Lemma wf_header_printed out : wf (set_stdout out (push header_record initial_world)).
Proof. repeat constructor. Qed.

(** The state in which a loop that only pushed entries leaves a run. *)
Lemma report_after_loop out recs :
  let w := push_all recs (set_stdout out (push header_record initial_world)) in
  csv_file w = None /\ report w = Some header_record :: map Some recs.
Proof.
  cbv zeta. split; [by rewrite csv_file_push_all|].
  destruct (push_all_store recs (set_stdout out (push header_record initial_world)))
    as [Hh Hi].
  by destruct (report_grown _ _ recs (wf_header_printed out) Hh Hi) as [_ ->].
Qed.




Lemma identities_elem args env repositories image tags tag :
  image ∈ repositories ->
  tag_list args env image = Some tags ->
  tag ∈ tags ->
  (image, tag) ∈ identities args env repositories.
Proof.
  intros Hi Ht Htag. unfold identities.
  apply list_elem_of_In, in_concat. exists (map (pair image) tags). split.
  - apply in_map_iff. exists image. split.
    + by rewrite Ht.
    + by apply list_elem_of_In.
  - apply in_map, list_elem_of_In, Htag.
Qed.

Lemma resolved_not_elem args env id done recs :
  resolved args env id = None ->
  Forall2 (fun id d => resolved args env id = Some d) done recs ->
  id ∉ done.
Proof.
  intros Hn H Hin. induction H as [|i d done recs Hi _ IH]; [by inversion Hin|].
  apply elem_of_cons in Hin as [-> | Hin]; [congruence | by apply IH].
Qed.

(** C4, amended: a manifest request that raises (a timeout, a connection
    error) is not recorded anywhere. The run ends at that image and tag, or
    earlier, with the exception: nothing is exported, and no entry of
    [images] is for that image and tag. *)
Theorem manifest_failure_aborts (args : Args) (env : Env) (c : response) (j : body)
    (repositories tags : list string) (image tag : string) :
  source_get env (source_registry args +:+ "/v2/_catalog") = Some c ->
  json c = Some j ->
  j_repositories j = Some repositories ->
  image ∈ repositories ->
  tag_list args env image = Some tags ->
  tag ∈ tags ->
  source_get env (source_registry args +:+ "/v2/" +:+ image +:+ "/manifests/" +:+ tag) = None \/
  target_get env (target_registry args +:+ "/v2/" +:+ image +:+ "/manifests/" +:+ tag) = None ->
  exists e w done recs,
    run args env = (Raise e, w) /\
    csv_file w = None /\
    report w = Some header_record :: map Some recs /\
    Forall2 (fun id d => resolved args env id = Some d) done recs /\
    done `prefix_of` identities args env repositories /\
    (image, tag) ∉ done.
Proof.
  intros Hc Hj Hr Hi Ht Htag Hfail.
  assert (resolved args env (image, tag) = None) as Hnone.
  { unfold resolved; cbn [fst snd]. destruct Hfail as [-> | ->]; [done|].
    by destruct
      (source_get env (source_registry args +:+ "/v2/" +:+ image +:+ "/manifests/" +:+ tag)). }
  destruct (run_phases args env c j _ Hc Hj Hr) as [out [[e He] | Hrun]]; cbv zeta in *.
  - exists e, (set_stdout out (push header_record initial_world)), [], [].
    repeat split; [exact He | constructor | apply prefix_nil | by inversion 1].
  - destruct (appends_repositories args env repositories
                (set_stdout out (push header_record initial_world)))
      as (r & done & recs & Hloop & Hpre & Hrec & Hall).
    rewrite Hloop in Hrun.
    destruct (report_after_loop out recs) as [Hcsv Hrep].
    pose proof (resolved_not_elem _ _ _ _ _ Hnone Hrec) as Hnot.
    destruct r as [[]|e].
    + destruct Hnot. rewrite (Hall eq_refl). by apply (identities_elem _ _ _ _ tags).
    + exists e; eexists; exists done, recs. split; [exact Hrun|]. by repeat split.
Qed.

Lemma manifest_failure_aborts_witness :
  exists e w done recs,
    run example_args timeout_env = (Raise e, w) /\
    csv_file w = None /\
    report w = Some header_record :: map Some recs /\
    Forall2 (fun id d => resolved example_args timeout_env id = Some d) done recs /\
    done `prefix_of` identities example_args timeout_env ["app"] /\
    ("app", "v2") ∉ done.
Proof.
  exact (manifest_failure_aborts example_args timeout_env
           (catalog_answer ["app"])
           {| j_errors := None; j_repositories := Some ["app"]; j_tags := None |}
           ["app"] ["v1"; "v2"; "v3"] "app" "v2" eq_refl eq_refl eq_refl
           (list_elem_of_here _ _) eq_refl
           (list_elem_of_further _ _ _ (list_elem_of_here _ _))
           (or_intror eq_refl)).
Defined.

(** C4 as stated fails: when the request of the target's manifest of
    [app:v2] times out, the run ends with the exception of [requests] at
    line 104. [images] holds the header entry and the entry of [app:v1];
    there is no entry, marked or not, for [app:v2]; no file was written. *)
Lemma manifest_timeout_counterexample :
  target_get timeout_env "https://target.example.com/v2/app/manifests/v2" = None /\
  run example_args timeout_env =
    (Raise RequestException,
     World
       [ header_record; image_record example_args "app" "v1" "sha256:aaa" "" ]
       [0%nat; 1%nat] [] None) /\
  map (fun e => e ≫= dict_get "tag") (report (snd (run example_args timeout_env))) =
    [Some "Tag"; Some "v1"].
Proof. by vm_compute. Qed.

(** ** The report is append-only and in catalog order *)

(** C9: [images] is append-only and keeps the order of the enumeration.
    Whatever the registries answer and however the run ends, [images] holds
    the header entry first and then, once each and in order, the entries of
    an initial segment of the enumeration (repositories in the order of the
    catalog, tags in the order of each tag list), all of it when the run
    returns; and every part of the script leaves the entries [images]
    already holds unchanged and in place. *)
Theorem report_append_only_in_order (args : Args) (env : Env) :
  (forall r w,
     run args env = (r, w) ->
     exists done recs,
       report w = Some header_record :: map Some recs /\
       Forall2 (fun id d => resolved args env id = Some d) done recs /\
       done `prefix_of` enumeration args env /\
       (r = Ok tt -> done = enumeration args env)) /\
  append_only header_entry /\
  (forall c, append_only (catalog_errors args c)) /\
  (forall registry user password, append_only (login env registry user password)) /\
  (forall image tag, append_only (process_tag args env image tag)) /\
  (forall image, append_only (process_image args env image)) /\
  (forall c, append_only (process_catalog args env c)) /\
  append_only csv_export /\
  append_only report_commands.
Proof.
  split; [intros r w; apply run_report|].
  split; [|split; [|split; [|split; [|split; [|split; [|split]]]]]].
  - intros w Hwf. rewrite header_entry_returns. cbn [snd].
    destruct (push_all_store [header_record] w) as [Hh Hi].
    destruct (report_grown w (push header_record w) [header_record] Hwf Hh Hi) as [Hwf' ->].
    split; [done | by eexists].
  - intros c. apply append_only_keeps, keeps_catalog_errors.
  - intros registry user password. apply append_only_keeps, keeps_login.
  - intros image tag.
    apply (append_only_grows args env _ [(image, tag)]), grows_appends, appends_process_tag.
  - intros image. eapply (append_only_grows args env), grows_appends, appends_process_image.
  - intros c. eapply (append_only_grows args env), grows_process_catalog.
  - apply append_only_keeps, keeps_csv_export.
  - apply append_only_keeps, keeps_report_commands.
Qed.

Lemma report_append_only_in_order_witness :
  exists w,
    run example_args example_env = (Ok tt, w) /\
    enumeration example_args example_env = [("app", "v1"); ("app", "v2"); ("app", "v3")] /\
    exists recs,
      report w = Some header_record :: map Some recs /\
      Forall2 (fun id d => resolved example_args example_env id = Some d)
        [("app", "v1"); ("app", "v2"); ("app", "v3")] recs.
Proof.
  exists (snd (run example_args example_env)).
  split; [by vm_compute|]. split; [by vm_compute|].
  destruct (proj1 (report_append_only_in_order example_args example_env) (Ok tt)
              (snd (run example_args example_env)) ltac:(by vm_compute))
    as (done & recs & Hrep & Hrec & _ & Hall).
  exists recs. split; [exact Hrep|].
  rewrite (Hall eq_refl) in Hrec. exact Hrec.
Defined.

(** * Beyond the specification: how a run ends, what it prints and exports *)

(** ** Lines 68-94 *)

Lemma catalog_errors_cases args c w :
  catalog_errors args c w =
  match json c with
  | Some j =>
      match j_errors j with
      | Some (error :: _) =>
          (Raise (SystemExit 1),
           set_stdout
             (stdout w ++
              [ ""; "Error connecting to " +:+ source_registry args +:+ ":";
                code error +:+ ": " +:+ message error ])
             w)
      | _ => (Ok tt, w)
      end
  | None => (Raise JSONDecodeError, w)
  end.
Proof.
  unfold catalog_errors, response_json. destruct (json c) as [j|]; [|reflexivity].
  rewrite bind_ret. destruct (j_errors j) as [[|error others]|]; try reflexivity.
  destruct w as [h i o k]. unfold set_stdout; cbn. by rewrite <- !app_assoc.
Qed.

Lemma login_cases env registry user password w :
  login env registry user password w =
  if given user && given password then
    match docker_login env registry (default "" user) (default "" password) with
    | None => (Ok tt, w)
    | Some err =>
        (Raise (SystemExit 1),
         set_stdout (stdout w ++ [ ""; "Could not login to " +:+ registry +:+ ":"; err ]) w)
    end
  else (Ok tt, w).
Proof.
  unfold login. destruct (given user && given password); [|reflexivity].
  destruct (docker_login _ _ _ _) as [err|]; [|reflexivity].
  destruct w as [h i o k]. unfold set_stdout; cbn. by rewrite <- !app_assoc.
Qed.

Lemma login_logs_in env registry user password w :
  logs_in env registry user password = true ->
  login env registry user password w = (Ok tt, w).
Proof.
  rewrite login_cases. unfold logs_in.
  destruct (given user && given password); [|done].
  by destruct (docker_login _ _ _ _).
Qed.

Lemma login_refused env registry user password w :
  logs_in env registry user password = false ->
  exists err,
    docker_login env registry (default "" user) (default "" password) = Some err /\
    login env registry user password w =
      (Raise (SystemExit 1),
       set_stdout (stdout w ++ [ ""; "Could not login to " +:+ registry +:+ ":"; err ]) w).
Proof.
  rewrite login_cases. unfold logs_in.
  destruct (given user && given password); [|done].
  destruct (docker_login _ _ _ _) as [err|]; [|done]. by exists err.
Qed.

Lemma before_loop_starts args env c w :
  starts args env c = true -> before_loop args env c w = (Ok tt, w).
Proof.
  unfold starts, before_loop. destruct (json c) as [j|] eqn:Hj; [|done].
  intros [[He Hs]%andb_true_iff Ht]%andb_true_iff.
  rewrite bind_apply, catalog_errors_cases, Hj.
  unfold no_error_listed in He.
  destruct (j_errors j) as [[|error others]|]; try done;
    by rewrite bind_apply, (login_logs_in _ _ _ _ _ Hs), (login_logs_in _ _ _ _ _ Ht).
Qed.

Lemma before_loop_stops args env c w :
  starts args env c = false ->
  exists e out, before_loop args env c w = (Raise e, set_stdout (stdout w ++ out) w).
Proof.
  unfold starts, before_loop. rewrite bind_apply, catalog_errors_cases.
  destruct (json c) as [j|] eqn:Hj.
  - unfold no_error_listed.
    destruct (j_errors j) as [[|error others]|]; cbn [andb];
      try (intros _; by eexists _, _).
    all: intros H; rewrite bind_apply;
      destruct (logs_in env (source_registry args) (source_user args) (source_password args))
        eqn:Hs;
      [ rewrite (login_logs_in _ _ _ _ _ Hs); cbn [andb] in H;
        destruct (login_refused _ _ _ _ w H) as (err & _ & ->); by eexists _, _
      | destruct (login_refused _ _ _ _ w Hs) as (err & _ & ->); by eexists _, _ ].
  - intros _. exists JSONDecodeError, []. by rewrite <- set_stdout_nil.
Qed.

(** ** Whether the loops return *)

Lemma for_each_returns {A} (xs : list A) (body : A -> M unit) (b : A -> bool) :
  (forall x w, returns (fst (body x w)) = b x) ->
  forall w, returns (fst (for_each xs body w)) = forallb b xs.
Proof.
  intros Hb. induction xs as [|x xs IH]; intros w; [reflexivity|].
  cbn [for_each forallb]. rewrite bind_apply. specialize (Hb x w).
  destruct (body x w) as [[[]|e] w1]; cbn [fst returns] in *; rewrite <- Hb; [apply IH | done].
Qed.

Lemma process_tag_result args env image tag w :
  returns (fst (process_tag args env image tag w)) =
  match resolved args env (image, tag) with Some _ => true | None => false end.
Proof. rewrite process_tag_cases. by destruct (resolved args env (image, tag)). Qed.

Lemma process_image_result args env image w :
  returns (fst (process_image args env image w)) =
  match tag_list args env image with
  | Some tags =>
      forallb
        (fun tag => match resolved args env (image, tag) with Some _ => true | None => false end)
        tags
  | None => false
  end.
Proof.
  pose proof (process_image_cases args env image w) as H.
  destruct (tag_list args env image) as [tags|].
  - rewrite H. apply for_each_returns. intros tag w'. apply process_tag_result.
  - destruct H as [e ->]. reflexivity.
Qed.

Lemma loop_result args env repositories w :
  returns (fst (for_each repositories (process_image args env) w)) =
  loop_returns args env repositories.
Proof. apply for_each_returns. intros image w'. apply process_image_result. Qed.

(** The loop, when every request of it returns: one entry for each image
    and tag, in order, and nothing else. *)
Lemma loop_returns_entries args env repositories w :
  loop_returns args env repositories = true ->
  exists recs,
    for_each repositories (process_image args env) w = (Ok tt, push_all recs w) /\
    Forall2 (fun id d => resolved args env id = Some d) (identities args env repositories) recs.
Proof.
  intros Hl. pose proof (loop_result args env repositories w) as Hr. rewrite Hl in Hr.
  destruct (appends_repositories args env repositories w)
    as (r & done & recs & Hloop & _ & Hrec & Hall).
  rewrite Hloop in Hr. cbn [fst] in Hr. destruct r as [[]|e]; [|done].
  exists recs. split; [exact Hloop|]. by rewrite <- (Hall eq_refl).
Qed.

Lemma loop_raises args env repositories w :
  loop_returns args env repositories = false ->
  exists e recs,
    for_each repositories (process_image args env) w = (Raise e, push_all recs w).
Proof.
  intros Hl. pose proof (loop_result args env repositories w) as Hr. rewrite Hl in Hr.
  destruct (appends_repositories args env repositories w)
    as (r & done & recs & Hloop & _).
  rewrite Hloop in Hr. cbn [fst] in Hr. destruct r as [[]|e]; [done|].
  by exists e, recs.
Qed.

Lemma push_all_world recs h i o c :
  push_all recs (World h i o c) =
  World (h ++ recs) (i ++ seq (length h) (length recs)) o c.
Proof.
  revert h i. induction recs as [|d recs IH]; intros h i.
  - cbn. by rewrite !app_nil_r.
  - cbn [push_all fold_left]. fold (push_all recs (push d (World h i o c))).
    unfold push; cbn [heap images stdout csv_file]. rewrite IH.
    rewrite length_app, <- !app_assoc. cbn [length app seq]. by rewrite Nat.add_1_r.
Qed.

Lemma resolved_entry_like args env ids recs :
  Forall2 (fun id d => resolved args env id = Some d) ids recs -> Forall entry_like recs.
Proof.
  induction 1 as [|id d ids recs Hd _ IH]; constructor; [|exact IH].
  unfold resolved in Hd. destruct (source_get env _) as [rs|]; [|done].
  destruct (target_get env _) as [rt|]; [|done].
  injection Hd as <-. by eexists _, _, _, _, _.
Qed.

(** ** The export *)

Lemma lookups_seq (h0 ds : list dict) :
  Forall2 (fun x d => (h0 ++ ds) !! x = Some d) (seq (length h0) (length ds)) ds.
Proof.
  revert h0. induction ds as [|d ds IH]; intros h0; [constructor|].
  cbn [length seq]. constructor; [by apply list_lookup_middle|].
  specialize (IH (h0 ++ [d])). rewrite length_app, <- app_assoc in IH.
  cbn [length app] in IH. by rewrite Nat.add_1_r in IH.
Qed.

(** The dictionaries of the script all have the ten keys, in the order of
    the header. *)
Lemma built_row d :
  d = header_record \/ entry_like d ->
  dict_keys d = dict_keys header_record /\
  map (fun k => default "" (dict_get k d)) (dict_keys header_record) = map snd d.
Proof. intros [-> | (args & image & tag & sd & td & ->)]; by split. Qed.

Lemma csv_writerow_built (x : nat) d h i o rows :
  h !! x = Some d ->
  d = header_record \/ entry_like d ->
  csv_writerow (dict_keys header_record) x (World h i o (Some rows)) =
  (Ok tt, World h i o (Some (rows ++ [map snd d]))).
Proof.
  intros Hx Hd. destruct (built_row d Hd) as [Hk Hrow].
  unfold csv_writerow. cbn [heap csv_file]. unfold loc, dict in *. rewrite Hx.
  cbn [from_option id]. rewrite Hk, Hrow. reflexivity.
Qed.

Lemma csv_writerows xs ds h i o rows :
  Forall2 (fun x d => h !! x = Some d) xs ds ->
  Forall (fun d => d = header_record \/ entry_like d) ds ->
  for_each xs (csv_writerow (dict_keys header_record)) (World h i o (Some rows)) =
  (Ok tt, World h i o (Some (rows ++ map (map snd) ds))).
Proof.
  intros H. revert rows. induction H as [|x d xs ds Hx _ IH]; intros rows Hb.
  - cbn. by rewrite app_nil_r.
  - apply Forall_cons in Hb as [Hd Hb]. cbn [for_each map].
    rewrite bind_apply, (csv_writerow_built x d h i o rows Hx Hd), (IH _ Hb).
    by rewrite <- app_assoc.
Qed.

(** Lines 138-152 on the entries of a run: one row for each dictionary of
    [images], the header first, each row the values in the order of the
    keys of the header. *)
Lemma csv_export_entries recs o c :
  Forall entry_like recs ->
  csv_export (World (header_record :: recs) (seq 0 (S (length recs))) o c) =
  (Ok tt,
   World (header_record :: recs) (seq 0 (S (length recs)))
     (o ++ ["CSV export completed"])
     (Some (map (map snd) (header_record :: recs)))).
Proof.
  intros He.
  pose proof (csv_writerows (0%nat :: seq 1 (length recs)) (header_record :: recs)
                (header_record :: recs) (0%nat :: seq 1 (length recs)) o []
                (lookups_seq [] (header_record :: recs))) as Hrows.
  cbn [seq]. unfold csv_export.
  cbv [bind csv_open get_images keys_of ret set_csv_file heap images stdout csv_file].
  change (from_option id [] ((header_record :: recs) !! 0%nat)) with header_record.
  rewrite Hrows; [reflexivity|].
  constructor; [by left|]. eapply Forall_impl; [exact He|]. by right.
Qed.

(** ** The listings *)

Lemma listed_commands_record args image tag sd td :
  listed_commands (image_record args image tag sd td) =
  match classify (observation sd) (observation td) with
  | MissingOnTarget =>
      [ "docker pull " +:+ image_ref (source_registry args) image tag;
        "docker tag " +:+ image_ref (source_registry args) image tag +:+ " "
          +:+ image_ref (target_registry args) image tag;
        "docker push " +:+ image_ref (target_registry args) image tag;
        "docker rmi " +:+ image_ref (source_registry args) image tag;
        "docker rmi " +:+ image_ref (target_registry args) image tag;
        "" ]
  | InSync | Conflict => []
  end.
Proof.
  unfold listed_commands.
  change (field "status" (image_record args image tag sd td))
    with (status_message (classify (observation sd) (observation td))).
  rewrite status_message_missing. by destruct (classify _ _).
Qed.

Lemma listed_under_conflict_record args image tag sd td :
  listed_under (image_status !!! 2%nat) (image_record args image tag sd td) =
  match classify (observation sd) (observation td) with
  | Conflict => [ image +:+ ":" +:+ tag ]
  | MissingOnTarget | InSync => []
  end.
Proof.
  unfold listed_under.
  change (field "status" (image_record args image tag sd td))
    with (status_message (classify (observation sd) (observation td))).
  by destruct (classify _ _).
Qed.

Lemma print_commands_listed (x : nat) d h i o c :
  h !! x = Some d -> entry_like d ->
  print_commands x (World h i o c) = (Ok tt, World h i (o ++ listed_commands d) c).
Proof.
  intros Hx (args & image & tag & sd & td & ->).
  rewrite (print_commands_record args image tag sd td (World h i o c) x Hx).
  by rewrite listed_commands_record.
Qed.

Lemma print_if_status_listed (x : nat) d h i o c :
  h !! x = Some d -> entry_like d ->
  print_if_status (image_status !!! 2%nat) x (World h i o c) =
  (Ok tt, World h i (o ++ listed_under (image_status !!! 2%nat) d) c).
Proof.
  intros Hx (args & image & tag & sd & td & ->).
  rewrite listed_under_conflict_record.
  unfold print_if_status. rewrite bind_apply.
  rewrite (getitem_record (World h i o c) x _ "status"
             (status_message (classify (observation sd) (observation td))) Hx eq_refl).
  destruct (classify (observation sd) (observation td));
    try (change (World h i o c = World h i (o ++ []) c) || cbn -[image_record];
         by rewrite ?app_nil_r).
  change (str_eq (status_message Conflict) (image_status !!! 2%nat)) with true.
  cbv iota. rewrite bind_apply.
  rewrite (getitem_record (World h i o c) x _ "image" image Hx eq_refl).
  rewrite bind_apply.
  rewrite (getitem_record (World h i o c) x _ "tag" tag Hx eq_refl).
  reflexivity.
Qed.

Lemma for_each_listing (body : loc -> M unit) (f : dict -> list string)
    (xs : list nat) (ds : list dict) h i o c :
  (forall (x : nat) d o', h !! x = Some d -> entry_like d ->
     body x (World h i o' c) = (Ok tt, World h i (o' ++ f d) c)) ->
  Forall2 (fun x d => h !! x = Some d) xs ds ->
  Forall entry_like ds ->
  for_each xs body (World h i o c) = (Ok tt, World h i (o ++ concat (map f ds)) c).
Proof.
  intros Hb H. revert o. induction H as [|x d xs ds Hx _ IH]; intros o He.
  - cbn. by rewrite app_nil_r.
  - apply Forall_cons in He as [Hd He]. cbn [for_each map concat].
    rewrite bind_apply, (Hb x d o Hx Hd), (IH _ He). by rewrite <- app_assoc.
Qed.

Lemma bind_print_world {B} (f : unit -> M B) line h i o c :
  bind (print line) f (World h i o c) = f tt (World h i (o ++ [line]) c).
Proof. reflexivity. Qed.

Lemma bind_get_images_world {B} (f : list loc -> M B) h i o c :
  bind get_images f (World h i o c) = f i (World h i o c).
Proof. reflexivity. Qed.

(** Lines 154-174 on the entries of a run. *)
Lemma report_commands_entries recs o c :
  Forall entry_like recs ->
  report_commands (World (header_record :: recs) (seq 0 (S (length recs))) o c) =
  (Ok tt,
   World (header_record :: recs) (seq 0 (S (length recs)))
     (o ++ [ ""; "These commands would run:" ] ++
      concat (map listed_commands recs) ++
      [ ""; image_status !!! 2%nat ] ++
      concat (map (listed_under (image_status !!! 2%nat)) recs))
     c).
Proof.
  intros He.
  pose proof (lookups_seq [header_record] recs) as Hl. cbn [length app] in Hl.
  unfold report_commands. change dry_run with true. cbv iota. cbn [seq].
  change (drop 2 image_status) with [image_status !!! 2%nat]. cbn [for_each].
  rewrite !bind_print_world, bind_apply, bind_get_images_world. cbn [drop].
  rewrite (for_each_listing print_commands listed_commands (seq 1 (length recs)) recs
             _ _ _ _ (fun x d o' => print_commands_listed x d _ _ o' _) Hl He).
  rewrite bind_print_world, bind_apply, bind_print_world, bind_get_images_world. cbn [drop].
  rewrite (for_each_listing (print_if_status (image_status !!! 2%nat))
             (listed_under (image_status !!! 2%nat)) (seq 1 (length recs)) recs
             _ _ _ _ (fun x d o' => print_if_status_listed x d _ _ o' _) Hl He).
  cbn [ret]. f_equal. f_equal. rewrite <- !app_assoc. reflexivity.
Qed.

(** ** The whole run *)

Lemma enumeration_catalog args env c j repositories :
  source_get env (source_registry args +:+ "/v2/_catalog") = Some c ->
  json c = Some j ->
  j_repositories j = Some repositories ->
  enumeration args env = identities args env repositories.
Proof. intros Hc Hj Hr. unfold enumeration, catalog_repositories. by rewrite Hc, Hj, Hr. Qed.

(** The run up to the loop, when lines 68-94 do not end it. *)
Lemma run_to_loop args env c :
  source_get env (source_registry args +:+ "/v2/_catalog") = Some c ->
  starts args env c = true ->
  run args env =
  match process_catalog args env c (World [header_record] [0%nat] [] None) with
  | (Ok _, w) => (csv_export >> report_commands) w
  | (Raise e, w) => (Raise e, w)
  end.
Proof.
  intros Hc Hs. unfold run, main.
  rewrite bind_apply, header_entry_returns. unfold session_get. rewrite Hc.
  rewrite bind_ret, before_loop_then, bind_apply, (before_loop_starts _ _ _ _ Hs).
  rewrite bind_apply. reflexivity.
Qed.

(** A run in which nothing fails returns, in the state [final_world] of
    the entries of the enumeration. *)
Lemma run_final args env :
  run_returns args env = true ->
  exists recs,
    Forall2 (fun id d => resolved args env id = Some d) (enumeration args env) recs /\
    run args env = (Ok tt, final_world recs).
Proof.
  unfold run_returns.
  destruct (source_get env _) as [c|] eqn:Hc; [|done].
  intros [Hs Hl]%andb_true_iff.
  destruct (json c) as [j|] eqn:Hj; [|done].
  destruct (j_repositories j) as [repositories|] eqn:Hr; [|done].
  destruct (loop_returns_entries args env repositories
              (World [header_record] [0%nat] [] None) Hl) as (recs & Hloop & Hrec).
  exists recs. split; [by rewrite (enumeration_catalog _ _ _ _ _ Hc Hj Hr)|].
  rewrite (run_to_loop _ _ _ Hc Hs).
  unfold process_catalog, response_json, member. rewrite Hj, bind_ret, Hr, bind_ret, Hloop.
  rewrite push_all_world.
  change (World ([header_record] ++ recs)
            ([0%nat] ++ seq (length [header_record]) (length recs)) [] None)
    with (World (header_record :: recs) (seq 0 (S (length recs))) [] None).
  pose proof (resolved_entry_like _ _ _ _ Hrec) as He.
  rewrite bind_apply, (csv_export_entries recs [] None He).
  rewrite (report_commands_entries recs _ _ He). reflexivity.
Qed.

(** A run in which something fails ends with an exception, and has
    exported nothing. *)
Lemma run_raises args env :
  run_returns args env = false ->
  exists e w, run args env = (Raise e, w) /\ csv_file w = None.
Proof.
  unfold run_returns.
  destruct (source_get env (source_registry args +:+ "/v2/_catalog")) as [c|] eqn:Hc.
  - destruct (starts args env c) eqn:Hs.
    + rewrite (run_to_loop _ _ _ Hc Hs). cbn [andb].
      unfold process_catalog, response_json, member.
      destruct (json c) as [j|]; [|intros _; by eexists _, _].
      rewrite bind_ret.
      destruct (j_repositories j) as [repositories|]; [|intros _; by eexists _, _].
      rewrite bind_ret. intros Hl.
      destruct (loop_raises args env repositories (World [header_record] [0%nat] [] None) Hl)
        as (e & recs & ->).
      exists e. eexists. split; [reflexivity|]. by rewrite csv_file_push_all.
    + intros _. unfold run, main.
      rewrite bind_apply, header_entry_returns. unfold session_get. rewrite Hc.
      rewrite bind_ret, before_loop_then, bind_apply.
      destruct (before_loop_stops args env c (push header_record initial_world) Hs)
        as (e & out & ->).
      by exists e; eexists.
  - intros _. unfold run, main.
    rewrite bind_apply, header_entry_returns. unfold session_get. rewrite Hc.
    by eexists _, _.
Qed.

(** ** How a run ends *)



Lemma entry_row d :
  entry_like d -> map snd d = map (fun k => field k d) columns.
Proof. by intros (args & image & tag & sd & td & ->). Qed.

(** X4: the export is all or nothing. A run that returns has written one
    row of labels and then one row for each image and tag of the
    enumeration, in order, each with the ten columns of lines 21-30; a run
    that ends with an exception has written no file. *)
Theorem export_all_or_nothing (args : Args) (env : Env) (r : result unit) (w : world) :
  run args env = (r, w) ->
  match r with
  | Ok _ =>
      exists recs,
        Forall2 (fun id d => resolved args env id = Some d) (enumeration args env) recs /\
        csv_file w =
          Some
            ([ "Image"; "Tag"; "Source digest"; "Target digest"; "Status";
               "Pull command"; "Retag command"; "Push command";
               "Cleanup source image"; "Cleanup target image" ]
             :: map (fun d => map (fun k => field k d) columns) recs)
  | Raise _ => csv_file w = None
  end.
Proof.
  intros Hrun. destruct (run_returns args env) eqn:Hr.
  - destruct (run_final args env Hr) as (recs & Hrec & Hfin).
    rewrite Hfin in Hrun. injection Hrun as <- <-.
    exists recs. split; [exact Hrec|]. cbn [final_world csv_file map].
    do 2 f_equal. apply map_ext_Forall.
    eapply Forall_impl; [exact (resolved_entry_like _ _ _ _ Hrec)|]. apply entry_row.
  - destruct (run_raises args env Hr) as (e & w' & He & Hcsv).
    rewrite He in Hrun. by injection Hrun as <- <-.
Qed.

Lemma export_all_or_nothing_witness :
  csv_file (snd (run example_args timeout_env)) = None /\
  exists recs,
    Forall2 (fun id d => resolved example_args example_env id = Some d)
      (enumeration example_args example_env) recs /\
    csv_file (snd (run example_args example_env)) =
      Some
        ([ "Image"; "Tag"; "Source digest"; "Target digest"; "Status";
           "Pull command"; "Retag command"; "Push command";
           "Cleanup source image"; "Cleanup target image" ]
         :: map (fun d => map (fun k => field k d) columns) recs).
Proof.
  split.
  - exact (export_all_or_nothing example_args timeout_env (Raise RequestException)
             (snd (run example_args timeout_env)) ltac:(by vm_compute)).
  - exact (export_all_or_nothing example_args example_env (Ok tt)
             (snd (run example_args example_env)) ltac:(by vm_compute)).
Defined.

(** X5: what a run that returns has printed: the note of the export, the
    heading, the five commands and a blank line for each entry whose status
    says the image is not on the target, in the order of the enumeration,
    then a blank line, the conflict message and [image:tag] for each entry
    whose status is the conflict message; nothing for an entry whose status
    says the image is on the target already. *)
Theorem listings_of_a_run (args : Args) (env : Env) (w : world) :
  run args env = (Ok tt, w) ->
  exists recs,
    Forall2 (fun id d => resolved args env id = Some d) (enumeration args env) recs /\
    stdout w =
      [ "CSV export completed"; ""; "These commands would run:" ] ++
      concat (map listed_commands recs) ++
      [ ""; "Conflict: same tag exist in both registries with different digest" ] ++
      concat
        (map
           (listed_under "Conflict: same tag exist in both registries with different digest")
           recs) /\
    Forall
      (fun d =>
         field "status" d = "Image already present on target" ->
         listed_commands d = [] /\
         listed_under "Conflict: same tag exist in both registries with different digest" d = [])
      recs.
Proof.
  intros Hrun. destruct (run_returns args env) eqn:Hr.
  - destruct (run_final args env Hr) as (recs & Hrec & Hfin).
    rewrite Hfin in Hrun. injection Hrun as <-.
    exists recs. split; [exact Hrec|]. split; [reflexivity|].
    apply Forall_forall. intros d _ Hd. unfold listed_commands, listed_under.
    by rewrite Hd.
  - destruct (run_raises args env Hr) as (e & w' & He & _). congruence.
Qed.

Lemma listings_of_a_run_witness :
  exists recs,
    Forall2 (fun id d => resolved example_args example_env id = Some d)
      (enumeration example_args example_env) recs /\
    stdout (snd (run example_args example_env)) =
      [ "CSV export completed"; ""; "These commands would run:" ] ++
      concat (map listed_commands recs) ++
      [ ""; "Conflict: same tag exist in both registries with different digest" ] ++
      concat
        (map
           (listed_under "Conflict: same tag exist in both registries with different digest")
           recs) /\
    Forall
      (fun d =>
         field "status" d = "Image already present on target" ->
         listed_commands d = [] /\
         listed_under "Conflict: same tag exist in both registries with different digest" d = [])
      recs.
Proof.
  exact (listings_of_a_run example_args example_env (snd (run example_args example_env))
           ltac:(by vm_compute)).
Defined.

(** The run up to the logins, when the catalog lists no error. *)
Lemma run_to_logins args env c j :
  source_get env (source_registry args +:+ "/v2/_catalog") = Some c ->
  json c = Some j ->
  no_error_listed j = true ->
  run args env =
  (login env (source_registry args) (source_user args) (source_password args) >>
   login env (target_registry args) (target_user args) (target_password args) >>
   process_catalog args env c >>
   (if csv_write then csv_export else ret tt) >>
   report_commands)
    (World [header_record] [0%nat] [] None).
Proof.
  intros Hc Hj He. unfold run, main.
  rewrite bind_apply, header_entry_returns. unfold session_get. rewrite Hc.
  rewrite bind_ret, bind_apply, catalog_errors_cases, Hj.
  unfold no_error_listed in He. by destruct (j_errors j) as [[|error others]|].
Qed.

(** X6: when the credentials of the source are given and the Docker daemon
    refuses them, the run ends with [exit(1)] before any tag list is
    requested: it has printed a blank line, [Could not login to] with the
    address of the source, and the error; [images] holds the header entry
    only and no file is written. *)
Theorem source_login_refused_aborts (args : Args) (env : Env) (c : response) (j : body)
    (err : string) :
  source_get env (source_registry args +:+ "/v2/_catalog") = Some c ->
  json c = Some j ->
  no_error_listed j = true ->
  given (source_user args) && given (source_password args) = true ->
  docker_login env (source_registry args)
    (default "" (source_user args)) (default "" (source_password args)) = Some err ->
  run args env =
    (Raise (SystemExit 1),
     World [header_record] [0%nat]
       [ ""; "Could not login to " +:+ source_registry args +:+ ":"; err ] None).
Proof.
  intros Hc Hj He Hg Hl. rewrite (run_to_logins _ _ _ _ Hc Hj He).
  by rewrite bind_apply, login_cases, Hg, Hl.
Qed.

Lemma source_login_refused_aborts_witness :
  run login_args (refusing_env "alice") =
    (Raise (SystemExit 1),
     World [header_record] [0%nat]
       [ ""; "Could not login to https://source.example.com:";
         "401 Client Error: Unauthorized" ] None).
Proof.
  exact (source_login_refused_aborts login_args (refusing_env "alice")
           (catalog_answer ["app"])
           {| j_errors := None; j_repositories := Some ["app"]; j_tags := None |}
           "401 Client Error: Unauthorized" eq_refl eq_refl eq_refl eq_refl eq_refl).
Defined.

(** X7: when the login to the source passes or is skipped and the daemon
    refuses the credentials given for the target, the run ends with
    [exit(1)] in the same way, naming the target. *)
Theorem target_login_refused_aborts (args : Args) (env : Env) (c : response) (j : body)
    (err : string) :
  source_get env (source_registry args +:+ "/v2/_catalog") = Some c ->
  json c = Some j ->
  no_error_listed j = true ->
  logs_in env (source_registry args) (source_user args) (source_password args) = true ->
  given (target_user args) && given (target_password args) = true ->
  docker_login env (target_registry args)
    (default "" (target_user args)) (default "" (target_password args)) = Some err ->
  run args env =
    (Raise (SystemExit 1),
     World [header_record] [0%nat]
       [ ""; "Could not login to " +:+ target_registry args +:+ ":"; err ] None).
Proof.
  intros Hc Hj He Hs Hg Hl. rewrite (run_to_logins _ _ _ _ Hc Hj He).
  rewrite bind_apply, (login_logs_in _ _ _ _ _ Hs).
  by rewrite bind_apply, login_cases, Hg, Hl.
Qed.

Lemma target_login_refused_aborts_witness :
  run login_args (refusing_env "bob") =
    (Raise (SystemExit 1),
     World [header_record] [0%nat]
       [ ""; "Could not login to https://target.example.com:";
         "401 Client Error: Unauthorized" ] None).
Proof.
  exact (target_login_refused_aborts login_args (refusing_env "bob")
           (catalog_answer ["app"])
           {| j_errors := None; j_repositories := Some ["app"]; j_tags := None |}
           "401 Client Error: Unauthorized"
           eq_refl eq_refl eq_refl eq_refl eq_refl eq_refl).
Defined.

(** X8: when the catalog request raises, or its answer is not JSON, the
    run ends with that exception at line 68 or 69: nothing is printed, no
    login is tried, [images] holds the header entry only and no file is
    written. *)
Theorem unreadable_catalog_aborts (args : Args) (env : Env) :
  (source_get env (source_registry args +:+ "/v2/_catalog") = None ->
   run args env = (Raise RequestException, World [header_record] [0%nat] [] None)) /\
  (forall c,
     source_get env (source_registry args +:+ "/v2/_catalog") = Some c ->
     json c = None ->
     run args env = (Raise JSONDecodeError, World [header_record] [0%nat] [] None)).
Proof.
  split.
  - intros Hc. unfold run, main.
    rewrite bind_apply, header_entry_returns. unfold session_get. by rewrite Hc.
  - intros c Hc Hj. unfold run, main.
    rewrite bind_apply, header_entry_returns. unfold session_get. rewrite Hc.
    by rewrite bind_ret, bind_apply, catalog_errors_cases, Hj.
Qed.

Lemma unreadable_catalog_aborts_witness :
  run example_args unreachable_env =
    (Raise RequestException, World [header_record] [0%nat] [] None) /\
  run example_args not_json_env =
    (Raise JSONDecodeError, World [header_record] [0%nat] [] None).
Proof.
  split.
  - exact (proj1 (unreadable_catalog_aborts example_args unreachable_env) eq_refl).
  - exact (proj2 (unreadable_catalog_aborts example_args not_json_env)
             {| status_code := 502; headers := ∅; json := None |} eq_refl eq_refl).
Defined.

(** X9: when the catalog has neither an error to report nor a
    [repositories] member and no login is refused, the run ends with
    [KeyError] at line 97: nothing is printed and no file is written. *)
Theorem missing_repositories_aborts (args : Args) (env : Env) (c : response) (j : body) :
  source_get env (source_registry args +:+ "/v2/_catalog") = Some c ->
  json c = Some j ->
  starts args env c = true ->
  j_repositories j = None ->
  run args env =
    (Raise (KeyError "repositories"), World [header_record] [0%nat] [] None).
Proof.
  intros Hc Hj Hs Hr. rewrite (run_to_loop _ _ _ Hc Hs).
  unfold process_catalog, response_json, member. by rewrite Hj, bind_ret, Hr.
Qed.

Lemma missing_repositories_aborts_witness :
  run example_args no_repositories_env =
    (Raise (KeyError "repositories"), World [header_record] [0%nat] [] None).
Proof.
  exact (missing_repositories_aborts example_args no_repositories_env
           (tags_answer [])
           {| j_errors := None; j_repositories := None; j_tags := Some (Some []) |}
           eq_refl eq_refl eq_refl eq_refl).
Defined.

(** X10: a repository whose tag list is [null] ends the run with
    [TypeError] at line 101 once the repositories listed before it are
    done: [images] holds the header entry and their entries, nothing is
    printed, no file is written, and the repositories listed after it are
    not asked for. *)
Theorem null_tag_list_aborts (args : Args) (env : Env) (c tags : response) (j jt : body)
    (listed_before listed_after : list string) (image : string) :
  source_get env (source_registry args +:+ "/v2/_catalog") = Some c ->
  json c = Some j ->
  starts args env c = true ->
  j_repositories j = Some (listed_before ++ image :: listed_after) ->
  loop_returns args env listed_before = true ->
  source_get env (source_registry args +:+ "/v2/" +:+ image +:+ "/tags/list") = Some tags ->
  json tags = Some jt ->
  j_tags jt = Some None ->
  exists recs,
    Forall2 (fun id d => resolved args env id = Some d)
      (identities args env listed_before) recs /\
    run args env =
      (Raise TypeError,
       World (header_record :: recs) (seq 0 (S (length recs))) [] None).
Proof.
  intros Hc Hj Hs Hr Hl Ht Hjt Hnull. rewrite (run_to_loop _ _ _ Hc Hs).
  unfold process_catalog, response_json, member. rewrite Hj, bind_ret, Hr, bind_ret.
  destruct (loop_returns_entries args env listed_before
              (World [header_record] [0%nat] [] None) Hl) as (recs & Hloop & Hrec).
  exists recs. split; [exact Hrec|].
  rewrite for_each_app, bind_apply, Hloop. cbn [for_each]. rewrite bind_apply.
  unfold process_image at 1, session_get. rewrite Ht, bind_ret.
  unfold response_json, member. rewrite Hjt, bind_ret, Hnull, bind_ret.
  unfold iter. rewrite bind_apply. unfold raise at 1.
  by rewrite push_all_world.
Qed.

Lemma null_tag_list_aborts_witness :
  exists recs,
    Forall2 (fun id d => resolved example_args null_tags_env id = Some d)
      (identities example_args null_tags_env []) recs /\
    run example_args null_tags_env =
      (Raise TypeError,
       World (header_record :: recs) (seq 0 (S (length recs))) [] None).
Proof.
  exact (null_tag_list_aborts example_args null_tags_env
           (catalog_answer ["empty"; "app"])
           {| status_code := 200; headers := ∅;
              json := Some {| j_errors := None; j_repositories := None;
                              j_tags := Some None |} |}
           {| j_errors := None; j_repositories := Some ["empty"; "app"]; j_tags := None |}
           {| j_errors := None; j_repositories := None; j_tags := Some None |}
           [] ["app"] "empty"
           eq_refl eq_refl eq_refl eq_refl eq_refl eq_refl eq_refl eq_refl).
Defined.

(** ** No scheme is left in an address *)

Lemma match_separator_some text rest :
  Re.match_here separator_pattern text = Some rest -> text = "://" +:+ rest.
Proof.
  destruct text as [|a [|b [|c r]]]; cbn; try discriminate;
    repeat match goal with
    | |- context [Ascii.eqb ?x ?y] => destruct (Ascii.eqb_spec x y); subst; try discriminate
    end.
  by intros [= ->].
Qed.

(** What the pattern matches is a part of the text, three characters or
    more, at its start. *)
Lemma match_scheme_suffix text rest :
  Re.match_here scheme_pattern text = Some rest ->
  exists c pre, text = String c pre +:+ rest.
Proof.
  induction text as [|c t IH]; [discriminate|].
  rewrite match_scheme_cons.
  destruct (Re.atom_matches Re.Dot c).
  - destruct (Re.match_here scheme_pattern t) as [r|] eqn:Ht.
    + intros [= ->]. destruct (IH eq_refl) as (c' & pre & ->).
      by exists c, (String c' pre).
    + intros ->%match_separator_some. by exists ":"%char, "//".
  - intros ->%match_separator_some. by exists ":"%char, "//".
Qed.

Lemma match_scheme_none_tail c t :
  Re.match_here scheme_pattern (String c t) = None ->
  Re.atom_matches Re.Dot c = true ->
  Re.match_here scheme_pattern t = None.
Proof.
  rewrite match_scheme_cons. intros H Hc. rewrite Hc in H.
  by destruct (Re.match_here scheme_pattern t).
Qed.

Lemma match_scheme_at_separator rest :
  Re.match_here scheme_pattern (String ":" (String "/" (String "/" rest))) <> None.
Proof.
  rewrite match_scheme_cons. cbn [Re.atom_matches].
  change (negb (Ascii.eqb ":" Re.newline)) with true. cbv iota.
  by destruct (Re.match_here scheme_pattern _).
Qed.

Lemma sub_from_none c t :
  Re.match_here scheme_pattern (String c t) = None ->
  Re.sub_from 0 scheme_pattern "" (String c t) =
  String c (Re.sub_from 0 scheme_pattern "" t).
Proof. intros H. cbn [Re.sub_from]. by rewrite H. Qed.

(** Where the pattern does not match, what [re.sub] returns does not
    start with [://]. *)
Lemma sub_no_match_prefix text :
  Re.match_here scheme_pattern text = None ->
  String.prefix "://" (Re.sub_from 0 scheme_pattern "" text) = false.
Proof.
  destruct text as [|c t]; [reflexivity|]. intros H. rewrite (sub_from_none _ _ H).
  cbn [String.prefix]. destruct (ascii_dec ":" c) as [<-|]; [|reflexivity].
  pose proof (match_scheme_none_tail _ _ H eq_refl) as Ht.
  destruct t as [|c' t']; [reflexivity|]. rewrite (sub_from_none _ _ Ht).
  cbn [String.prefix]. destruct (ascii_dec "/" c') as [<-|]; [|reflexivity].
  pose proof (match_scheme_none_tail _ _ Ht eq_refl) as Ht'.
  destruct t' as [|c'' t'']; [reflexivity|]. rewrite (sub_from_none _ _ Ht').
  cbn [String.prefix]. destruct (ascii_dec "/" c'') as [<-|]; [|reflexivity].
  by destruct (match_scheme_at_separator t'').
Qed.

Lemma sub_never_leaves_separator n text :
  String.length text <= n ->
  has_separator (Re.sub_from 0 scheme_pattern "" text) = false.
Proof.
  revert text. induction n as [|n IH]; intros text Hn.
  - destruct text; [reflexivity | cbn in Hn; lia].
  - destruct text as [|c t]; [reflexivity|].
    destruct (Re.match_here scheme_pattern (String c t)) as [rest|] eqn:Hm.
    + destruct (match_scheme_suffix _ _ Hm) as (c' & pre & Heq).
      change (String c' pre +:+ rest) with (String c' (pre +:+ rest)) in Heq.
      injection Heq as -> ->.
      rewrite (sub_from_match scheme_pattern "" c' (pre +:+ rest) rest (String.length pre) Hm)
        by (change (S (String.length (pre +:+ rest)) - String.length rest = S (String.length pre));
            rewrite length_append; lia).
      change ("" +:+ Re.sub_from (String.length pre) scheme_pattern "" (pre +:+ rest))
        with (Re.sub_from (String.length pre) scheme_pattern "" (pre +:+ rest)).
      rewrite sub_from_skip. apply IH.
      change (S (String.length (pre +:+ rest)) <= S n) in Hn.
      rewrite length_append in Hn. lia.
    + pose proof (sub_no_match_prefix _ Hm) as Hp.
      rewrite (sub_from_none _ _ Hm) in *.
      cbn [has_separator]. rewrite Hp. cbn [orb]. apply IH.
      change (S (String.length t) <= S n) in Hn. lia.
Qed.

(** X11: whatever the address of a registry, [://] does not occur in what
    lines 113 and 114 make of it. *)
Theorem plain_has_no_separator (registry : string) :
  has_separator (plain registry) = false.
Proof. exact (sub_never_leaves_separator (String.length registry) registry (le_n _)). Qed.

(** ** Anonymous access *)

Lemma for_each_ext {A} (xs : list A) (body body' : A -> M unit) w :
  (forall x w', body x w' = body' x w') ->
  for_each xs body w = for_each xs body' w.
Proof.
  intros Hb. revert w. induction xs as [|x xs IH]; intros w; [reflexivity|].
  cbn [for_each]. rewrite !bind_apply, Hb. by destruct (body' x w) as [[[]|e] w1].
Qed.

Lemma process_catalog_ext args env env' c w :
  source_get env = source_get env' ->
  target_get env = target_get env' ->
  process_catalog args env c w = process_catalog args env' c w.
Proof.
  intros Hs Ht. unfold process_catalog. rewrite !bind_apply.
  destruct (response_json c w) as [[j|e] w1]; [|reflexivity]. rewrite !bind_apply.
  destruct (member "repositories" (j_repositories j) w1) as [[repositories|e] w2];
    [|reflexivity].
  apply for_each_ext. intros image w3. unfold process_image. rewrite Hs, !bind_apply.
  destruct (session_get _ _ w3) as [[tags|e] w4]; [|reflexivity]. rewrite !bind_apply.
  destruct (response_json tags w4) as [[jt|e] w5]; [|reflexivity]. rewrite !bind_apply.
  destruct (member "tags" (j_tags jt) w5) as [[value|e] w6]; [|reflexivity].
  rewrite !bind_apply.
  destruct (iter value w6) as [[tag_list|e] w7]; [|reflexivity].
  apply for_each_ext. intros tag w8. unfold process_tag. by rewrite Hs, Ht.
Qed.

(** X12: where for neither registry a user and a password are both given
    and not empty, the run is the same whatever the Docker daemon would
    answer to a login. *)
Theorem anonymous_run_ignores_daemon (args : Args) (env env' : Env) :
  source_get env = source_get env' ->
  target_get env = target_get env' ->
  given (source_user args) && given (source_password args) = false ->
  given (target_user args) && given (target_password args) = false ->
  run args env = run args env'.
Proof.
  intros Hs Ht Hgs Hgt. unfold run, main. rewrite !bind_apply, header_entry_returns.
  rewrite Hs, !bind_apply.
  destruct (session_get (source_get env') (source_registry args +:+ "/v2/_catalog")
              (push header_record initial_world)) as [[c|e] w1]; [|reflexivity].
  rewrite !bind_apply. destruct (catalog_errors args c w1) as [[[]|e] w2]; [|reflexivity].
  rewrite !bind_apply, !login_cases, Hgs. rewrite !bind_apply, !login_cases, Hgt.
  rewrite !bind_apply, (process_catalog_ext args env env' c w2 Hs Ht).
  reflexivity.
Qed.

Lemma anonymous_run_ignores_daemon_witness :
  run example_args example_env = run example_args (refusing_env "").
Proof.
  exact (anonymous_run_ignores_daemon example_args example_env (refusing_env "")
           eq_refl eq_refl eq_refl eq_refl).
Defined.

(** ** The transfer steps: in every entry, listed for some *)






